(** * AccountsAPI: the expiring cache and the cache-aware user resolution

    A shallow embedding of [src/lib/cache.ts] (class [Cache]) and of the
    methods [getUser], [getUsers] and [verifyUser] of class [AccountsAPI]
    in [src/lib/utils.ts], followed by the properties of the
    specification that concern them.

    Modelling conventions.
    - JavaScript numbers that hold millisecond timestamps and durations
      ([Date.now()], [expires], [timeout]) are integers ([Z]).
    - The private [Map<string, {value, expires}>] is a [gmap string Entry];
      the code never iterates over it, so insertion order is unobservable.
    - A cache method receives as [now] the reading that its call to
      [Date.now()] yields.  At the level of [AccountsAPI] every cache call
      draws its own reading from a clock, so that time may pass between
      any two calls.
    - An [async] method is a computation in a state-and-exception monad:
      a rejected promise is [Throw], a fulfilled one is [Return].  The
      world threaded through it holds the cache, the number of clock
      readings taken and the log of the HTTP requests sent.  One logical
      task is modelled; other tasks interleaving at an [await] are not. *)

From Stdlib Require Import ZArith Ascii String List Lia.
From stdpp Require Import base option list gmap strings fin_maps.

Local Open Scope Z_scope.

(** ** JavaScript values

    The cache stores values of type [unknown] and axios hands back
    [res.data] of type [any]: both are JavaScript values, [null] and
    [undefined] included. *)

#[local] Unset Elimination Schemes.
Inductive JsValue : Type :=
| JsUndefined
| JsNull
| JsBoolean (b : bool)
| JsNumber (n : Z)
| JsString (s : string)
| JsArray (items : list JsValue)
| JsObject (props : list (string * JsValue)).
#[local] Set Elimination Schemes.

(** ** class Cache (src/lib/cache.ts)

    The compiled [lib/cache.js] is the same class without the type
    annotations and without the [if (!found)] guards. *)

Module Cache.

(** The object literal [{ value, expires }] kept in the map. *)
Record Entry : Type := mkEntry { value : JsValue; expires : Z }.

(** The two private fields [#cache] and [#timeout]. *)
Record t : Type := mk { cache : gmap string Entry; timeout : Z }.

(** [constructor(timeout)] *)
Definition new (timeout : Z) : t := {| cache := ∅; timeout := timeout |}.

(** [get(key)]: the map lookup stands for [this.#cache.has(key)]
    followed by [this.#cache.get(key)]; an entry is an object, hence
    truthy, so [if (!found) return null] never fires on a present key. *)
Definition get (now : Z) (key : string) (this : t) : JsValue * t :=
  match cache this !! key with
  | Some found =>
      if expires found >? now then (value found, this)
      else (JsNull,
            {| cache := base.delete key (cache this); timeout := timeout this |})
  | None => (JsNull, this)
  end.

(** [set(key, value, timeout = this.#timeout)]: the optional argument
    is [None] when the caller leaves it out. *)
Definition set (now : Z) (key : string) (value : JsValue)
    (timeout_arg : option Z) (this : t) : t :=
  let timeout := match timeout_arg with
                 | Some d => d
                 | None => timeout this
                 end in
  {| cache := <[key := {| value := value; expires := now + timeout |}]> (cache this);
     timeout := Cache.timeout this |}.

(** [delete(key)] *)
Definition delete (key : string) (this : t) : t :=
  {| cache := base.delete key (cache this); timeout := timeout this |}.

(** [clear()] *)
Definition clear (this : t) : t :=
  {| cache := ∅; timeout := timeout this |}.

(** [has(key)] *)
Definition has (now : Z) (key : string) (this : t) : bool * t :=
  match cache this !! key with
  | Some found =>
      if expires found >? now then (true, this)
      else (false,
            {| cache := base.delete key (cache this); timeout := timeout this |})
  | None => (false, this)
  end.

(** Two observers used to state properties; they are not methods of the
    class. An entry is live at [now] when it is present and
    [expires > now]. *)
Definition live (now : Z) (this : t) (key : string) : bool :=
  match cache this !! key with
  | Some found => expires found >? now
  | None => false
  end.

(** The value held under [key], whatever its expiry. *)
Definition stored (this : t) (key : string) : JsValue :=
  match cache this !! key with
  | Some found => value found
  | None => JsNull
  end.

End Cache.

(** ** Errors, requests and responses (src/lib/utils.ts) *)

(** What a rejected promise carries: a plain [new Error(message)], the
    exported [AccountsAPIError(message, code)], or the error axios raises
    when no response was received. *)
Inductive JsError : Type :=
| Error (message : string)
| AccountsAPIError (message : string) (code : Z)
| AxiosError (code : string).

(** A call [this.#request.get(url, { params })] or
    [this.#request.post(url, data)]. *)
Inductive Request : Type :=
| GET (url : string) (params : list (string * string))
| POST (url : string) (data : list (string * string)).

(** What the transport yields for a request, before the response
    interceptor runs: a response whose [data] is decoded at the type the
    calling method uses, an error that carries a response
    ([err.response.data.message], [err.response.status]), or an error
    without one. *)
Inductive AxiosResult (T : Type) : Type :=
| Response (data : T)
| ErrorResponse (message : string) (status : Z)
| NoResponse (err : JsError).
Arguments Response {T} data.
Arguments ErrorResponse {T} message status.
Arguments NoResponse {T} err.

(** [interface User]: an object that exposes its own key as [id]; the
    remaining properties depend on the granted scope and are kept as
    they come.  [getUsers] and [verifyUser] use [user.id] as the cache
    key, a [string] by the declared type of [Cache.set]. *)
Module User.
Record t : Type := mk { id : string; props : list (string * JsValue) }.

(** The user object as the JavaScript value that is cached and returned. *)
Definition to_value (user : t) : JsValue :=
  JsObject (("id"%string, JsString (id user)) :: props user).
End User.

(** [type Scope] and [interface VerifyUserResponse]. *)
Inductive Scope : Type := basic | email | roles | metadata | security.

Record VerifyUserResponse : Type :=
  { user : User.t; scope : Scope }.

(** [Array.prototype.join] on an array of strings. *)
Fixpoint join (sep : string) (xs : list string) : string :=
  match xs with
  | [] => ""
  | x :: rest =>
      match rest with
      | [] => x
      | _ :: _ => x +:+ sep +:+ join sep rest
      end
  end.

(** ** class AccountsAPI (src/lib/utils.ts) *)

Module AccountsAPI.

(** The environment of a run: [clock n] is the [n]-th reading of
    [Date.now()]; the three answer functions give what the transport
    yields for the [n]-th request sent, at the type of [res.data] that
    [getUser], [getUsers] and [verifyUser] respectively expect. *)
Record Env : Type := {
  clock : nat -> Z;
  answer_user : nat -> Request -> AxiosResult JsValue;
  answer_users : nat -> Request -> AxiosResult (list User.t);
  answer_verify : nat -> Request -> AxiosResult VerifyUserResponse
}.

(** The state a method runs in: the private [#cache], the number of
    clock readings taken so far and the requests sent so far. *)
Record World : Type := {
  api_cache : Cache.t;
  ticks : nat;
  requests : list Request
}.

(** The settlement of the promise an [async] method returns. *)
Inductive Outcome (A : Type) : Type :=
| Return (a : A)
| Throw (e : JsError).
Arguments Return {A} a.
Arguments Throw {A} e.

Definition M (A : Type) : Type := Env -> World -> Outcome A * World.

Definition ret {A} (a : A) : M A := fun _ w => (Return a, w).

Definition throw {A} (e : JsError) : M A := fun _ w => (Throw e, w).

Definition bind {A B} (m : M A) (k : A -> M B) : M B :=
  fun env w =>
    match m env w with
    | (Return a, w') => k a env w'
    | (Throw e, w') => (Throw e, w')
    end.

#[export] Instance M_ret : MRet M := @ret.
#[export] Instance M_bind : MBind M := fun A B k m => bind m k.

(** A call of a method of [this.#cache]. The method is handed the next
    clock reading as its [Date.now()]; a call that returns without
    consulting the clock (a key the map does not hold) leaves that
    reading unused, which no later call can tell since the clock is
    arbitrary. *)
Definition on_cache {A} (method : Z -> Cache.t -> A * Cache.t) : M A :=
  fun env w =>
    let '(a, c) := method (clock env (ticks w)) (api_cache w) in
    (Return a, {| api_cache := c; ticks := S (ticks w); requests := requests w |}).

Definition cache_has (key : string) : M bool := on_cache (fun now => Cache.has now key).

Definition cache_get (key : string) : M JsValue := on_cache (fun now => Cache.get now key).

Definition cache_set (key : string) (value : JsValue) (timeout : option Z) : M unit :=
  on_cache (fun now c => (tt, Cache.set now key value timeout c)).

(** The response interceptor installed by the constructor:
    [res => res] on success; on failure
    [throw new AccountsAPIError(err.response.data.message, err.response.status)]
    when the error carries a response, [throw err] otherwise. *)
Definition interceptor {T} (r : AxiosResult T) : Outcome T :=
  match r with
  | Response data => Return data
  | ErrorResponse message status => Throw (AccountsAPIError message status)
  | NoResponse err => Throw err
  end.

(** [(await this.#request.get(...)).data]: the request is sent, the
    task waits, and the intercepted answer either yields [res.data] or
    rejects. *)
Definition await_request {T} (answer : Env -> nat -> Request -> AxiosResult T)
    (req : Request) : M T :=
  fun env w =>
    (interceptor (answer env (length (requests w)) req),
     {| api_cache := api_cache w; ticks := ticks w; requests := requests w ++ [req] |}).

(** [constructor(id, secret, options)]: the cache is created with
    [options.cacheTimeout || 300000] and [this.getAppInfo()] is started
    without being awaited. *)
Definition new (cacheTimeout : option Z) : World :=
  {| api_cache := Cache.new (match cacheTimeout with
                             | Some t => if t =? 0 then 300000 else t
                             | None => 300000
                             end);
     ticks := 0;
     requests := [GET "/me" []] |}.

(** [async getUser(id, force = false)] *)
Definition getUser (id : string) (force : bool) : M JsValue :=
  hit ← cache_has id ;
  if hit && negb force then cache_get id
  else
    data ← await_request answer_user (GET ("/users/" +:+ id) []) ;
    _ ← cache_set id data None ;
    ret data.

(** The first loop of [getUsers]: [for (const id of ids) ...], with the
    two arrays [notInCache] and [users] it pushes to. *)
Fixpoint walk (ids : list string) (force : bool)
    (notInCache : list string) (users : list JsValue)
    : M (list string * list JsValue) :=
  match ids with
  | [] => ret (notInCache, users)
  | id :: rest =>
      hit ← cache_has id ;
      if hit && negb force then
        found ← cache_get id ;
        walk rest force notInCache (users ++ [found])
      else
        walk rest force (notInCache ++ [id]) users
  end.

(** The second loop of [getUsers]: [for (const user of res.data) ...]. *)
Fixpoint store_fetched (data : list User.t) (users : list JsValue)
    : M (list JsValue) :=
  match data with
  | [] => ret users
  | user :: rest =>
      _ ← cache_set (User.id user) (User.to_value user) None ;
      store_fetched rest (users ++ [User.to_value user])
  end.

(** [async getUsers(ids, force = false)] *)
Definition getUsers (ids : list string) (force : bool) : M (list JsValue) :=
  if (100 <? length ids)%nat
  then throw (Error "Cannot get more than 100 users at once")
  else
    '(notInCache, users) ← walk ids force [] [] ;
    if (0 <? length notInCache)%nat then
      data ← await_request answer_users
                (GET "/users/multiple" [("ids"%string, join "," notInCache)]) ;
      store_fetched data users
    else ret users.

(** [async verifyUser(code)] *)
Definition verifyUser (code : string) : M VerifyUserResponse :=
  data ← await_request answer_verify (POST "/users/verify" [("code"%string, code)]) ;
  _ ← cache_set (User.id (user data)) (User.to_value (user data)) None ;
  ret data.

End AccountsAPI.

(** ** Specification-level vocabulary

    The notions the specification uses to describe [getUsers], written
    from its wording and not from the code: the keys of a request that are
    cache hits at an instant, those that are misses, the state of the
    cache once the expired entries among the queried keys are evicted, and
    the cache once a sequence of fetched users is written to it. *)

(** The occurrences of keys that are live at [now], in input order. *)
Definition hit_keys (now : Z) (c : Cache.t) (keys : list string) : list string :=
  List.filter (fun k => Cache.live now c k) keys.

(** The occurrences of keys that are not live at [now], in input order. *)
Definition miss_keys (now : Z) (c : Cache.t) (keys : list string) : list string :=
  List.filter (fun k => negb (Cache.live now c k)) keys.

(** The cached values of the hits, in input order. *)
Definition hit_values (now : Z) (c : Cache.t) (keys : list string) : list JsValue :=
  map (Cache.stored c) (hit_keys now c keys).

(** Lazy eviction over the queried keys: an entry goes exactly when its
    key was queried and it was no longer live at [now]. *)
Definition evicted (now : Z) (keys : list string) (c : Cache.t) : Cache.t :=
  {| Cache.cache :=
       filter (fun kv => kv.1 ∈ keys -> now < Cache.expires kv.2) (Cache.cache c);
     Cache.timeout := Cache.timeout c |}.

(** Each fetched user written under its own [id] with the default
    timeout, one after the other; the [j]-th write happens at the clock
    reading [clock (n + j)]. *)
Fixpoint write_all (clock : nat -> Z) (n : nat) (data : list User.t) (c : Cache.t)
    : Cache.t :=
  match data with
  | [] => c
  | u :: rest =>
      write_all clock (S n) rest
        (Cache.set (clock n) (User.id u) (User.to_value u) None c)
  end.

(** The single request [getUsers] sends for the keys [toFetch]. *)
Definition fetchMany (toFetch : list string) : Request :=
  GET "/users/multiple" [("ids"%string, join "," toFetch)].

(** The single request [getUser] sends for [id]. *)
Definition fetchOne (id : string) : Request :=
  GET ("/users/" +:+ id) [].

(** The walk over [keys] sees the cache as it is at [now]: at every
    clock reading the walk takes (one per key for [has], one more per hit
    for [get]) each of the keys is live exactly when it is live at
    [now]. Nothing is said of later readings. *)
Definition walk_sees (now : Z) (keys : list string)
    (env : AccountsAPI.Env) (w : AccountsAPI.World) : Prop :=
  forall (i : nat) (k : string),
    (i < length keys
         + length (hit_keys now (AccountsAPI.api_cache w) keys))%nat ->
    k ∈ keys ->
    Cache.live (AccountsAPI.clock env (AccountsAPI.ticks w + i)%nat)
      (AccountsAPI.api_cache w) k
    = Cache.live now (AccountsAPI.api_cache w) k.




(** ** Sample environments and worlds, for concrete runs *)

(** A transport that gives the same answers to every request. *)
Definition sample_env (time : nat -> Z) (one : AxiosResult JsValue)
    (many : AxiosResult (list User.t)) (verified : AxiosResult VerifyUserResponse)
    : AccountsAPI.Env :=
  {| AccountsAPI.clock := time;
     AccountsAPI.answer_user := fun _ _ => one;
     AccountsAPI.answer_users := fun _ _ => many;
     AccountsAPI.answer_verify := fun _ _ => verified |}.

(** A client whose cache holds ["a"], set at instant 0 with a timeout of
    1000 ms, and nothing else. *)
Definition sample_world : AccountsAPI.World :=
  {| AccountsAPI.api_cache := Cache.set 0 "a" (JsString "X") None (Cache.new 1000);
     AccountsAPI.ticks := 0;
     AccountsAPI.requests := [] |}.

(** ** getAppInfo and generateAuthURL (src/lib/utils.ts), and the
    variant of generateAuthURL in the JavaScript build *)

Module AuthURL.
Import AccountsAPI.

(** [interface AppInfo] *)
Record AppInfo : Type := {
  app_id : string;
  name : string;
  image : string;
  redirect_uris : list string;
  flags : list string;
  created_at : Z
}.

(** [interface GenerateAuthURLOptions]; a field the caller leaves out is
    [None]. *)
Record GenerateAuthURLOptions : Type := {
  redirect_uri : option string;
  scope : option (list Scope);
  prompt : option bool
}.

(** The two private fields [#baseURL] and [#id], fixed by the constructor. *)
Record Fields : Type := { baseURL : string; id : string }.

(** The string a value of [type Scope] is at run time. *)
Definition scope_name (s : Scope) : string :=
  match s with
  | basic => "basic"
  | email => "email"
  | roles => "roles"
  | metadata => "metadata"
  | security => "security"
  end.

(** [async getAppInfo()]; [answer_me] is what the transport yields for
    the request, with [res.data] read as an [AppInfo]. *)
Definition getAppInfo (answer_me : Env -> nat -> Request -> AxiosResult AppInfo)
    : M AppInfo :=
  await_request answer_me (GET "/me" []).

(** The last piece of the template string:
    [!prompt ? '&prompt=none' : '']. *)
Definition prompt_suffix (prompt : bool) : string :=
  if negb prompt then "&prompt=none" else "".

(** The template string that both variants return. *)
Definition auth_url (this : Fields) (encodeURIComponent : string -> string)
    (scope : list Scope) (redirect_uri : string) (prompt : bool) : string :=
  baseURL this +:+ "/auth/authorize?id=" +:+ id this
  +:+ "&scope=" +:+ encodeURIComponent (join "," (map scope_name scope))
  +:+ "&redirect_uri=" +:+ encodeURIComponent redirect_uri
  +:+ prompt_suffix prompt.

(** [async generateAuthURL(options = {})] of the TypeScript source.
    [prompt = false] in the destructuring gives [false] to a missing
    [prompt]; [!scope] holds only of a missing scope, an array being
    truthy; [!redirect_uri] holds of a missing one and of the empty
    string. *)
Definition generateAuthURL (this : Fields) (encodeURIComponent : string -> string)
    (answer_me : Env -> nat -> Request -> AxiosResult AppInfo)
    (options : GenerateAuthURLOptions) : M string :=
  let prompt := match prompt options with Some b => b | None => false end in
  match scope options with
  | None => throw (Error "Scope is required")
  | Some scope =>
      match redirect_uri options with
      | None | Some EmptyString => throw (Error "Redirect URI is required")
      | Some redirect_uri =>
          app ← getAppInfo answer_me ;
          if negb (bool_decide (redirect_uri ∈ redirect_uris app))
          then throw (Error "Redirect URI is not allowed")
          else ret (auth_url this encodeURIComponent scope redirect_uri prompt)
      end
  end.

(** [async generateAuthURL(options = {})] of the JavaScript build:
    [if (!scope) scope = ['basic']] instead of the rejection. *)
Definition generateAuthURL_js (this : Fields) (encodeURIComponent : string -> string)
    (answer_me : Env -> nat -> Request -> AxiosResult AppInfo)
    (options : GenerateAuthURLOptions) : M string :=
  let prompt := match prompt options with Some b => b | None => false end in
  let scope := match scope options with Some scope => scope | None => [basic] end in
  match redirect_uri options with
  | None | Some EmptyString => throw (Error "Redirect URI is required")
  | Some redirect_uri =>
      app ← getAppInfo answer_me ;
      if negb (bool_decide (redirect_uri ∈ redirect_uris app))
      then throw (Error "Redirect URI is not allowed")
      else ret (auth_url this encodeURIComponent scope redirect_uri prompt)
  end.

End AuthURL.

(** ** The built-in encodeURIComponent

    A string is read as the UTF-8 encoding of the JavaScript string, so
    that the built-in works byte by byte: the unreserved characters
    [A-Z a-z 0-9 - _ . ! ~ * ' ( )] are kept and every other byte becomes
    [%XX] with upper-case hexadecimal digits. *)

Definition unreserved (c : Ascii.ascii) : bool :=
  let n := Ascii.N_of_ascii c in
  ((65 <=? n) && (n <=? 90))%N || ((97 <=? n) && (n <=? 122))%N
  || ((48 <=? n) && (n <=? 57))%N
  || bool_decide (c ∈ ["-"; "_"; "."; "!"; "~"; "*"; "'"; "("; ")"]%char).

Definition hex_digit (n : N) : Ascii.ascii :=
  Ascii.ascii_of_N (if (n <? 10)%N then 48 + n else 55 + n)%N.

Definition percent_encode (c : Ascii.ascii) : string :=
  String "%" (String (hex_digit (Ascii.N_of_ascii c / 16))
                (String (hex_digit (Ascii.N_of_ascii c mod 16)) EmptyString)).

Fixpoint encodeURIComponent (s : string) : string :=
  match s with
  | EmptyString => EmptyString
  | String c rest =>
      (if unreserved c then String c EmptyString else percent_encode c)
      +:+ encodeURIComponent rest
  end.

(** ** Reading a joined string back

    [String.prototype.split] on a one-character separator, used to state
    that [join] loses nothing on keys that do not contain the separator. *)

Fixpoint split_on (sep : Ascii.ascii) (s : string) : list string :=
  match s with
  | EmptyString => [EmptyString]
  | String c rest =>
      if Ascii.eqb c sep then EmptyString :: split_on sep rest
      else match split_on sep rest with
           | [] => [String c EmptyString]
           | piece :: pieces => String c piece :: pieces
           end
  end.

(** The string [s] does not contain the character [sep]. *)
Fixpoint free_of (sep : Ascii.ascii) (s : string) : bool :=
  match s with
  | EmptyString => true
  | String c rest => negb (Ascii.eqb c sep) && free_of sep rest
  end.

(** ** Further sample data *)

Definition sample_app : AuthURL.AppInfo :=
  {| AuthURL.app_id := "app"; AuthURL.name := "Demo"; AuthURL.image := "";
     AuthURL.redirect_uris := ["http://localhost:3000/callback"];
     AuthURL.flags := []; AuthURL.created_at := 0 |}.

Definition sample_fields : AuthURL.Fields :=
  {| AuthURL.baseURL := "https://accounts.example"; AuthURL.id := "app" |}.

(** * Properties of the cache *)

Section CacheFacts.
Implicit Types (c : Cache.t) (key k : string) (now : Z).

Lemma get_fst now key c :
  fst (Cache.get now key c) =
    if Cache.live now c key then Cache.stored c key else JsNull.
Proof.
  unfold Cache.get, Cache.live, Cache.stored.
  destruct (Cache.cache c !! key) as [found|]; [|done].
  by destruct (Cache.expires found >? now).
Qed.

Lemma has_fst now key c : fst (Cache.has now key c) = Cache.live now c key.
Proof.
  unfold Cache.has, Cache.live.
  destruct (Cache.cache c !! key) as [found|]; [|done].
  by destruct (Cache.expires found >? now).
Qed.

Lemma has_snd_get now key c : snd (Cache.has now key c) = snd (Cache.get now key c).
Proof.
  unfold Cache.has, Cache.get.
  destruct (Cache.cache c !! key) as [found|]; [|done].
  by destruct (Cache.expires found >? now).
Qed.

Lemma has_live now key c : Cache.live now c key = true -> Cache.has now key c = (true, c).
Proof.
  unfold Cache.has, Cache.live.
  destruct (Cache.cache c !! key) as [found|]; [|done].
  by intros ->.
Qed.

Lemma get_live now key c :
  Cache.live now c key = true -> Cache.get now key c = (Cache.stored c key, c).
Proof.
  unfold Cache.get, Cache.live, Cache.stored.
  destruct (Cache.cache c !! key) as [found|]; [|done].
  by intros ->.
Qed.

Lemma live_spec now key c :
  Cache.live now c key = true <->
  exists found, Cache.cache c !! key = Some found /\ now < Cache.expires found.
Proof.
  unfold Cache.live. destruct (Cache.cache c !! key) as [found|].
  - rewrite Z.gtb_ltb, Z.ltb_lt. split; [eauto|]. by intros (? & [= <-] & ?).
  - split; [done|]. by intros (? & ? & ?).
Qed.

(** The scenario of the specification: timeout 1000 ms, [set] at 0,
    [get] at 500 and at 1500, [has] at 1600. *)
Example cache_scenario :
  fst (Cache.get 500 "u1"
         (Cache.set 0 "u1" (JsObject [("id"%string, JsString "u1")]) None (Cache.new 1000)))
    = JsObject [("id"%string, JsString "u1")] /\
  fst (Cache.get 1500 "u1"
         (Cache.set 0 "u1" (JsObject [("id"%string, JsString "u1")]) None (Cache.new 1000)))
    = JsNull /\
  fst (Cache.has 1600 "u1"
         (snd (Cache.get 1500 "u1"
                 (Cache.set 0 "u1" (JsObject [("id"%string, JsString "u1")]) None
                    (Cache.new 1000)))))
    = false.
Proof. by vm_compute. Qed.

End CacheFacts.

(** C1. After [set(k, v, ttl)] at instant [t0] (with [ttl] given, or the
    default timeout when it is left out), and as long as nothing has
    touched the entry of [k], a [get(k)] at elapsed time [t < ttl] returns
    [v] and leaves the cache as it is, while a [get(k)] at elapsed time
    [t >= ttl] (the boundary [t = ttl] included) returns [null] and
    removes the entry. *)
Theorem expiry_monotonicity (c c' : Cache.t) (k : string) (v : JsValue)
    (ttl_arg : option Z) (ttl t0 t : Z) :
  ttl = match ttl_arg with Some d => d | None => Cache.timeout c end ->
  Cache.cache c' !! k = Cache.cache (Cache.set t0 k v ttl_arg c) !! k ->
  (t < ttl -> Cache.get (t0 + t) k c' = (v, c')) /\
  (ttl <= t ->
     fst (Cache.get (t0 + t) k c') = JsNull /\
     snd (Cache.get (t0 + t) k c') = Cache.delete k c' /\
     Cache.cache (snd (Cache.get (t0 + t) k c')) !! k = None).
Proof.
  intros Httl Hk. unfold Cache.set in Hk. cbn in Hk.
  rewrite lookup_insert_eq, <- Httl in Hk.
  unfold Cache.get. rewrite Hk. cbn. split.
  - intros Hlt. replace (t0 + ttl >? t0 + t) with true; [done|].
    symmetry. rewrite Z.gtb_ltb. apply Z.ltb_lt. lia.
  - intros Hge. replace (t0 + ttl >? t0 + t) with false.
    + cbn. split_and!; [done | done | apply lookup_delete_eq].
    + symmetry. rewrite Z.gtb_ltb. apply Z.ltb_ge. lia.
Qed.

Lemma expiry_monotonicity_witness :
  Cache.get (0 + 500) "u1" (Cache.set 0 "u1" (JsString "x") None (Cache.new 1000))
    = (JsString "x", Cache.set 0 "u1" (JsString "x") None (Cache.new 1000)) /\
  fst (Cache.get (0 + 1000) "u1" (Cache.set 0 "u1" (JsString "x") None (Cache.new 1000)))
    = JsNull /\
  fst (Cache.get (0 + 7) "u1" (Cache.set 0 "u1" (JsString "x") (Some 7) (Cache.new 1000)))
    = JsNull.
Proof.
  split_and!.
  - apply (expiry_monotonicity (Cache.new 1000) _ "u1" (JsString "x") None 1000 0 500);
      [reflexivity | reflexivity | lia].
  - apply (expiry_monotonicity (Cache.new 1000) _ "u1" (JsString "x") None 1000 0 1000);
      [reflexivity | reflexivity | lia].
  - apply (expiry_monotonicity (Cache.new 1000) _ "u1" (JsString "x") (Some 7) 7 0 7);
      [reflexivity | reflexivity | lia].
Defined.

(** C7, as stated, at a live entry whose stored value is [null]:
    [has] answers [true] although [get] returns [null]. *)
Lemma has_true_get_null_counterexample :
  ~ (snd (Cache.has 1 "k" (Cache.set 0 "k" JsNull None (Cache.new 1000)))
       = snd (Cache.get 1 "k" (Cache.set 0 "k" JsNull None (Cache.new 1000))) /\
     (fst (Cache.has 1 "k" (Cache.set 0 "k" JsNull None (Cache.new 1000))) = true <->
      fst (Cache.get 1 "k" (Cache.set 0 "k" JsNull None (Cache.new 1000))) <> JsNull)).
Proof.
  intros [_ [H _]]. by apply H.
Qed.

(** C7, amended. At a fixed instant [has(k)] and [get(k)] make the same
    liveness check and leave the same cache behind; [has(k)] is [true]
    exactly when the entry of [k] is present and live, and then [get(k)]
    returns the stored value, otherwise [get(k)] returns [null]. Hence a
    non-null [get(k)] implies [has(k)], and the two agree on every entry
    whose stored value is not [null]. *)
Theorem has_agrees_with_get (now : Z) (k : string) (c : Cache.t) :
  snd (Cache.has now k c) = snd (Cache.get now k c) /\
  (fst (Cache.has now k c) = true <->
     exists found, Cache.cache c !! k = Some found /\ now < Cache.expires found) /\
  fst (Cache.get now k c) =
    (if fst (Cache.has now k c) then Cache.stored c k else JsNull) /\
  (fst (Cache.get now k c) <> JsNull -> fst (Cache.has now k c) = true) /\
  (Cache.stored c k <> JsNull ->
     (fst (Cache.has now k c) = true <-> fst (Cache.get now k c) <> JsNull)).
Proof.
  rewrite get_fst, has_fst. split_and!.
  - apply has_snd_get.
  - apply live_spec.
  - done.
  - by destruct (Cache.live now c k).
  - intros Hv. destruct (Cache.live now c k); [done|].
    split; [done|]. by intros [].
Qed.

(** C9. A cache operation touches at most the entry of the key it is
    given: for distinct keys [k] and [k2], [get(k)], [has(k)],
    [set(k, v, ttl)] and [delete(k)] leave the entry of [k2], value and
    expiry instant, as it was. *)
Theorem cache_frame (now : Z) (k k2 : string) (v : JsValue) (ttl : option Z)
    (c : Cache.t) :
  k <> k2 ->
  Cache.cache (snd (Cache.get now k c)) !! k2 = Cache.cache c !! k2 /\
  Cache.cache (snd (Cache.has now k c)) !! k2 = Cache.cache c !! k2 /\
  Cache.cache (Cache.set now k v ttl c) !! k2 = Cache.cache c !! k2 /\
  Cache.cache (Cache.delete k c) !! k2 = Cache.cache c !! k2.
Proof.
  intros Hne. rewrite has_snd_get. unfold Cache.get, Cache.set, Cache.delete.
  split_and!; cbn.
  - destruct (Cache.cache c !! k) as [found|]; [|done].
    destruct (Cache.expires found >? now); [done|]. cbn. by apply lookup_delete_ne.
  - destruct (Cache.cache c !! k) as [found|]; [|done].
    destruct (Cache.expires found >? now); [done|]. cbn. by apply lookup_delete_ne.
  - by apply lookup_insert_ne.
  - by apply lookup_delete_ne.
Qed.

Lemma cache_frame_witness :
  Cache.cache (snd (Cache.get 5 "a"
     (Cache.set 0 "b" JsNull (Some 9) (Cache.set 0 "a" JsNull (Some 1) (Cache.new 10)))))
    !! "b" = Some {| Cache.value := JsNull; Cache.expires := 9 |}.
Proof.
  destruct (cache_frame 5 "a" "b" JsNull None
              (Cache.set 0 "b" JsNull (Some 9) (Cache.set 0 "a" JsNull (Some 1) (Cache.new 10))))
    as [H _]; [discriminate|].
  rewrite H. reflexivity.
Defined.

(** * Properties of getUser, getUsers and verifyUser *)

Section Runs.
Import AccountsAPI.
Implicit Types (env : Env) (w : World) (key id : string).

Lemma run_bind {A B} (m : M A) (k : A -> M B) env w :
  (m ≫= k) env w =
    match m env w with
    | (Return a, w') => k a env w'
    | (Throw e, w') => (Throw e, w')
    end.
Proof. reflexivity. Qed.

Lemma run_cache_has key env w :
  cache_has key env w =
    (Return (Cache.live (clock env (ticks w)) (api_cache w) key),
     {| api_cache := snd (Cache.has (clock env (ticks w)) key (api_cache w));
        ticks := S (ticks w); requests := requests w |}).
Proof.
  unfold cache_has, on_cache. rewrite <- has_fst.
  by destruct (Cache.has _ key _).
Qed.

Lemma run_cache_get key env w :
  cache_get key env w =
    (Return (fst (Cache.get (clock env (ticks w)) key (api_cache w))),
     {| api_cache := snd (Cache.get (clock env (ticks w)) key (api_cache w));
        ticks := S (ticks w); requests := requests w |}).
Proof. unfold cache_get, on_cache. by destruct (Cache.get _ key _). Qed.

Lemma run_cache_set key v timeout env w :
  cache_set key v timeout env w =
    (Return tt,
     {| api_cache := Cache.set (clock env (ticks w)) key v timeout (api_cache w);
        ticks := S (ticks w); requests := requests w |}).
Proof. reflexivity. Qed.

Lemma run_await_request {T} (answer : Env -> nat -> Request -> AxiosResult T) req env w :
  await_request answer req env w =
    (interceptor (answer env (length (requests w)) req),
     {| api_cache := api_cache w; ticks := ticks w;
        requests := requests w ++ [req] |}).
Proof. reflexivity. Qed.

End Runs.

Section SingleKey.
Import AccountsAPI.
Implicit Types (env : Env) (w : World) (id code : string).

Lemma has_subseteq now id (c : Cache.t) :
  Cache.cache (snd (Cache.has now id c)) ⊆ Cache.cache c /\
  Cache.timeout (snd (Cache.has now id c)) = Cache.timeout c.
Proof.
  unfold Cache.has. destruct (Cache.cache c !! id) as [found|]; [|done].
  destruct (Cache.expires found >? now); [done|].
  split; [apply delete_subseteq | done].
Qed.

Lemma getUser_hit_run env w id :
  Cache.live (clock env (ticks w)) (api_cache w) id = true ->
  getUser id false env w =
    (Return (fst (Cache.get (clock env (S (ticks w))) id (api_cache w))),
     {| api_cache := snd (Cache.get (clock env (S (ticks w))) id (api_cache w));
        ticks := S (S (ticks w));
        requests := requests w |}).
Proof.
  intros Hlive. unfold getUser. rewrite run_bind, run_cache_has, Hlive.
  cbn [andb negb]. rewrite run_cache_get. cbn [ticks api_cache requests].
  by rewrite (has_live _ _ _ Hlive).
Qed.

Lemma getUser_fetch_run env w id (force : bool) :
  Cache.live (clock env (ticks w)) (api_cache w) id = false \/ force = true ->
  getUser id force env w =
    match interceptor (answer_user env (length (requests w)) (fetchOne id)) with
    | Return data =>
        (Return data,
         {| api_cache :=
              Cache.set (clock env (S (ticks w))) id data None
                (snd (Cache.has (clock env (ticks w)) id (api_cache w)));
            ticks := S (S (ticks w));
            requests := requests w ++ [fetchOne id] |})
    | Throw e =>
        (Throw e,
         {| api_cache := snd (Cache.has (clock env (ticks w)) id (api_cache w));
            ticks := S (ticks w);
            requests := requests w ++ [fetchOne id] |})
    end.
Proof.
  intros Hmiss. unfold getUser. rewrite run_bind, run_cache_has.
  assert (Cache.live (clock env (ticks w)) (api_cache w) id && negb force = false)
    as -> by (destruct Hmiss as [-> | ->]; [done | apply andb_false_r]).
  rewrite run_bind, run_await_request. cbn [ticks api_cache requests].
  fold (fetchOne id).
  by destruct (interceptor (answer_user env (length (requests w)) (fetchOne id))).
Qed.

Lemma getUsers_guard_run env w (ids : list string) (force : bool) :
  (100 < length ids)%nat ->
  getUsers ids force env w =
    (Throw (Error "Cannot get more than 100 users at once"), w).
Proof.
  intros Hlen. unfold getUsers.
  destruct (100 <? length ids)%nat eqn:E; [done|].
  apply Nat.ltb_ge in E. lia.
Qed.

(** C3. A batch of more than 100 keys is refused at once: [getUsers]
    rejects with the error of the guard and the world is exactly as it
    was, so the cache was neither read nor changed, the clock was not
    read and no request was sent. *)
Theorem getUsers_batch_limit env w (ids : list string) (force : bool) :
  (100 < length ids)%nat ->
  getUsers ids force env w =
    (Throw (Error "Cannot get more than 100 users at once"), w).
Proof. apply getUsers_guard_run. Qed.

Lemma getUsers_batch_limit_witness :
  getUsers (replicate 101 "a"%string) false
    (sample_env (fun _ => 5) (Response JsNull) (Response []) (NoResponse (AxiosError "")))
    sample_world =
  (Throw (Error "Cannot get more than 100 users at once"), sample_world).
Proof. apply getUsers_batch_limit. cbn. lia. Defined.

(** C6. With [force] false and [has(id)] true, [getUser] returns what
    [get(id)] returns and sends nothing. Otherwise (a miss, or [force]
    true even though the entry is live) it sends the one request for
    [id], writes the fetched data under [id] with the default timeout,
    overwriting what was there, and returns that data. *)
Theorem getUser_resolution env w id (force : bool) :
  (fst (Cache.has (clock env (ticks w)) id (api_cache w)) = true ->
   force = false ->
   getUser id force env w =
     (Return (fst (Cache.get (clock env (S (ticks w))) id (api_cache w))),
      {| api_cache := snd (Cache.get (clock env (S (ticks w))) id (api_cache w));
         ticks := S (S (ticks w));
         requests := requests w |})) /\
  (fst (Cache.has (clock env (ticks w)) id (api_cache w)) = false \/ force = true ->
   forall data,
     answer_user env (length (requests w)) (fetchOne id) = Response data ->
     getUser id force env w =
       (Return data,
        {| api_cache :=
             Cache.set (clock env (S (ticks w))) id data None
               (snd (Cache.has (clock env (ticks w)) id (api_cache w)));
           ticks := S (S (ticks w));
           requests := requests w ++ [fetchOne id] |}) /\
     Cache.cache (api_cache (snd (getUser id force env w))) !! id =
       Some {| Cache.value := data;
               Cache.expires :=
                 clock env (S (ticks w)) + Cache.timeout (api_cache w) |}).
Proof.
  rewrite has_fst. split.
  - intros Hlive ->. by apply getUser_hit_run.
  - intros Hmiss data Hans.
    rewrite (getUser_fetch_run _ _ _ _ Hmiss), Hans. cbn.
    split; [done|]. rewrite lookup_insert_eq. do 3 f_equal.
    apply has_subseteq.
Qed.

Lemma getUser_resolution_witness :
  fst (getUser "a" false
         (sample_env (fun _ => 5) (Response (JsString "Y")) (Response [])
            (NoResponse (AxiosError "")))
         sample_world) = Return (JsString "X") /\
  getUser "a" true
    (sample_env (fun _ => 5) (Response (JsString "Y")) (Response [])
       (NoResponse (AxiosError "")))
    sample_world =
  (Return (JsString "Y"),
   {| api_cache := Cache.set 5 "a" (JsString "Y") None (api_cache sample_world);
      ticks := 2;
      requests := [fetchOne "a"] |}).
Proof.
  split.
  - destruct (getUser_resolution
                (sample_env (fun _ => 5) (Response (JsString "Y")) (Response [])
                   (NoResponse (AxiosError "")))
                sample_world "a" false) as [H _].
    rewrite H; reflexivity.
  - destruct (getUser_resolution
                (sample_env (fun _ => 5) (Response (JsString "Y")) (Response [])
                   (NoResponse (AxiosError "")))
                sample_world "a" true) as [_ H].
    destruct (H (or_intror eq_refl) (JsString "Y") eq_refl) as [-> _].
    reflexivity.
Defined.

(** C8. When the verification request succeeds, [verifyUser] writes
    the user of the response under that user's own [id] with the default
    timeout, by the same call of [set] that [getUser] makes for a fetched
    user, and returns the response, user and scope, as it came. *)
Theorem verifyUser_caches_user env w code (r : VerifyUserResponse) :
  answer_verify env (length (requests w))
    (POST "/users/verify" [("code"%string, code)]) = Response r ->
  verifyUser code env w =
    (Return r,
     {| api_cache :=
          Cache.set (clock env (ticks w)) (User.id (user r))
            (User.to_value (user r)) None (api_cache w);
        ticks := S (ticks w);
        requests := requests w ++ [POST "/users/verify" [("code"%string, code)]] |}) /\
  Cache.cache (api_cache (snd (verifyUser code env w))) !! User.id (user r) =
    Some {| Cache.value := User.to_value (user r);
            Cache.expires := clock env (ticks w) + Cache.timeout (api_cache w) |} /\
  (forall env' w',
     answer_user env' (length (requests w')) (fetchOne (User.id (user r)))
       = Response (User.to_value (user r)) ->
     clock env' (S (ticks w')) = clock env (ticks w) ->
     Cache.timeout (api_cache w') = Cache.timeout (api_cache w) ->
     Cache.cache (api_cache (snd (getUser (User.id (user r)) true env' w')))
       !! User.id (user r) =
     Cache.cache (api_cache (snd (verifyUser code env w))) !! User.id (user r)).
Proof.
  intros Hans.
  assert (verifyUser code env w =
    (Return r,
     {| api_cache :=
          Cache.set (clock env (ticks w)) (User.id (user r))
            (User.to_value (user r)) None (api_cache w);
        ticks := S (ticks w);
        requests := requests w ++ [POST "/users/verify" [("code"%string, code)]] |}))
    as Hrun.
  { unfold verifyUser. rewrite run_bind, run_await_request, Hans. cbn [interceptor].
    by rewrite run_bind, run_cache_set. }
  rewrite Hrun. split; [done|]. cbn. rewrite lookup_insert_eq. split; [done|].
  intros env' w' Hans' Hclock Htimeout.
  rewrite (getUser_fetch_run env' w' _ true (or_intror eq_refl)), Hans'. cbn.
  rewrite lookup_insert_eq, Hclock. do 3 f_equal.
  rewrite <- Htimeout. apply has_subseteq.
Qed.

Lemma verifyUser_caches_user_witness :
  verifyUser "code"
    (sample_env (fun _ => 5) (Response JsNull) (Response [])
       (Response {| user := User.mk "u9" []; scope := email |}))
    sample_world =
  (Return {| user := User.mk "u9" []; scope := email |},
   {| api_cache := Cache.set 5 "u9" (JsObject [("id"%string, JsString "u9")]) None
                     (api_cache sample_world);
      ticks := 1;
      requests := [POST "/users/verify" [("code"%string, "code"%string)]] |}).
Proof.
  apply (verifyUser_caches_user
           (sample_env (fun _ => 5) (Response JsNull) (Response [])
              (Response {| user := User.mk "u9" []; scope := email |}))
           sample_world "code" {| user := User.mk "u9" []; scope := email |}).
  reflexivity.
Defined.

(** The reading [has] takes and the reading [get] takes are two calls of
    [Date.now()]: an entry that expires between them is reported live and
    then read as [null], without any request. *)
Remark getUser_expiry_between_has_and_get :
  getUser "a" false
    (sample_env (fun n => 999 + Z.of_nat n) (Response (JsString "Y")) (Response [])
       (NoResponse (AxiosError "")))
    sample_world =
  (Return JsNull,
   {| api_cache := Cache.delete "a" (api_cache sample_world);
      ticks := 2;
      requests := [] |}).
Proof. reflexivity. Qed.

End SingleKey.

Section ManyKeys.
Import AccountsAPI.
Implicit Types (env : Env) (w : World) (ids : list string) (c : Cache.t).

Lemma walk_returns ids (force : bool) :
  forall (notInCache : list string) (users : list JsValue) env w,
  exists toFetch found w1,
    walk ids force notInCache users env w
      = (Return (notInCache ++ toFetch, users ++ found), w1) /\
    toFetch `sublist_of` ids /\
    (length toFetch + length found = length ids)%nat /\
    requests w1 = requests w /\
    Cache.cache (api_cache w1) ⊆ Cache.cache (api_cache w) /\
    Cache.timeout (api_cache w1) = Cache.timeout (api_cache w).
Proof.
  induction ids as [|id rest IH]; intros notInCache users env w.
  - exists [], [], w. by rewrite !app_nil_r.
  - cbn [walk]. rewrite run_bind, run_cache_has.
    set (w1 := {| api_cache := snd (Cache.has _ id _) |}).
    destruct (has_subseteq (clock env (ticks w)) id (api_cache w)) as [Hsub Ht].
    destruct (Cache.live _ _ id && negb force).
    + rewrite run_bind, run_cache_get.
      set (w2 := {| api_cache := snd (Cache.get _ id _) |}).
      set (got := fst (Cache.get (clock env (ticks w1)) id (api_cache w1))).
      destruct (IH notInCache (users ++ [got]) env w2)
        as (tf & fd & w3 & Hrun & Hsl & Hlen & Hreq & Hsub' & Ht').
      exists tf, (got :: fd), w3.
      destruct (has_subseteq (clock env (ticks w1)) id (api_cache w1)) as [Hs2 Ht2].
      rewrite has_snd_get in Hs2, Ht2. split_and!.
      * rewrite Hrun. by rewrite <- app_assoc.
      * by apply sublist_cons.
      * cbn [length]. lia.
      * done.
      * etrans; [apply Hsub'|]. etrans; [apply Hs2|]. done.
      * rewrite Ht'. unfold w2. cbn [api_cache]. by rewrite Ht2.
    + destruct (IH (notInCache ++ [id]) users env w1)
        as (tf & fd & w3 & Hrun & Hsl & Hlen & Hreq & Hsub' & Ht').
      exists (id :: tf), fd, w3. split_and!.
      * rewrite Hrun. by rewrite <- app_assoc.
      * by apply sublist_skip.
      * cbn [length]. lia.
      * done.
      * etrans; [apply Hsub'|]. done.
      * by rewrite Ht'.
Qed.

Lemma store_fetched_run (data : list User.t) :
  forall (users : list JsValue) env w,
  store_fetched data users env w =
    (Return (users ++ map User.to_value data),
     {| api_cache := write_all (clock env) (ticks w) data (api_cache w);
        ticks := ticks w + length data;
        requests := requests w |}).
Proof.
  induction data as [|u rest IH]; intros users env w.
  - cbn. rewrite app_nil_r, Nat.add_0_r. by destruct w.
  - cbn [store_fetched]. rewrite run_bind, run_cache_set, IH.
    cbn. rewrite <- app_assoc. do 3 f_equal. lia.
Qed.

Lemma getUsers_run ids (force : bool) env w toFetch found w1 :
  (length ids <= 100)%nat ->
  walk ids force [] [] env w = (Return (toFetch, found), w1) ->
  getUsers ids force env w =
    if (0 <? length toFetch)%nat then
      match interceptor (answer_users env (length (requests w1)) (fetchMany toFetch)) with
      | Return data =>
          (Return (found ++ map User.to_value data),
           {| api_cache := write_all (clock env) (ticks w1) data (api_cache w1);
              ticks := ticks w1 + length data;
              requests := requests w1 ++ [fetchMany toFetch] |})
      | Throw e =>
          (Throw e,
           {| api_cache := api_cache w1; ticks := ticks w1;
              requests := requests w1 ++ [fetchMany toFetch] |})
      end
    else (Return found, w1).
Proof.
  intros Hlen Hwalk. unfold getUsers.
  destruct (100 <? length ids)%nat eqn:E; [apply Nat.ltb_lt in E; lia|].
  rewrite run_bind, Hwalk.
  destruct (0 <? length toFetch)%nat; [|done].
  rewrite run_bind, run_await_request. fold (fetchMany toFetch).
  destruct (interceptor _); [|done].
  by rewrite store_fetched_run.
Qed.

(** C5. When the transport fails, the failure is what the caller gets.
    If every request sent from world [w] is rejected with [e], then a
    [getUser] that has to fetch (a miss, or [force]) and a [getUsers] that
    sends a request both reject with that same [e]: no value is returned,
    cache hits included; exactly one request was sent, so nothing was
    retried; and the cache holds nothing it did not hold before, so
    nothing was written. *)
Theorem remote_failure_propagates env w (e : JsError) :
  (forall req, interceptor (answer_user env (length (requests w)) req) = Throw e) ->
  (forall req, interceptor (answer_users env (length (requests w)) req) = Throw e) ->
  (forall id (force : bool),
     fst (Cache.has (clock env (ticks w)) id (api_cache w)) = false \/ force = true ->
     fst (getUser id force env w) = Throw e /\
     requests (snd (getUser id force env w)) = requests w ++ [fetchOne id] /\
     Cache.cache (api_cache (snd (getUser id force env w)))
       ⊆ Cache.cache (api_cache w)) /\
  (forall ids (force : bool),
     requests (snd (getUsers ids force env w)) <> requests w ->
     fst (getUsers ids force env w) = Throw e /\
     (exists toFetch,
        requests (snd (getUsers ids force env w)) = requests w ++ [fetchMany toFetch]) /\
     Cache.cache (api_cache (snd (getUsers ids force env w)))
       ⊆ Cache.cache (api_cache w)).
Proof.
  intros Hone Hmany. split.
  - intros id force Hfetch. rewrite has_fst in Hfetch.
    rewrite (getUser_fetch_run _ _ _ _ Hfetch), Hone. cbn.
    split_and!; [done | done | apply has_subseteq].
  - intros ids force Hsent.
    destruct (decide (length ids <= 100)%nat) as [Hlen|Hlen].
    + destruct (walk_returns ids force [] [] env w)
        as (toFetch & found & w1 & Hwalk & _ & _ & Hreq & Hsub & _).
      cbn [app] in Hwalk.
      rewrite (getUsers_run _ _ _ _ _ _ _ Hlen Hwalk) in Hsent |- *.
      destruct (0 <? length toFetch)%nat.
      * rewrite Hreq, Hmany. cbn. eauto.
      * by cbn in Hsent.
    + rewrite getUsers_guard_run in Hsent by lia. by cbn in Hsent.
Qed.

(** *** The walk over the keys when liveness is stable *)

Lemma has_lookup now id c (k : string) (found : Cache.Entry) :
  Cache.cache (snd (Cache.has now id c)) !! k = Some found <->
  Cache.cache c !! k = Some found /\ (k = id -> now < Cache.expires found).
Proof.
  unfold Cache.has. destruct (Cache.cache c !! id) as [e|] eqn:E.
  - destruct (Cache.expires e >? now) eqn:Hexp; cbn.
    + split; [|by intros []]. intros Hk. split; [done|]. intros ->.
      rewrite E in Hk. injection Hk as <-. by apply Z.gtb_lt in Hexp.
    + rewrite lookup_delete_Some. split.
      * by intros [Hne Hk].
      * intros [Hk Hlive]. split; [|done]. intros <-.
        rewrite E in Hk. injection Hk as <-.
        specialize (Hlive eq_refl). rewrite Z.gtb_ltb in Hexp.
        apply Z.ltb_ge in Hexp. lia.
  - cbn. split; [|by intros []]. intros Hk. split; [done|]. intros ->. congruence.
Qed.

Lemma live_after_has now id c (k : string) :
  Cache.live now (snd (Cache.has now id c)) k = Cache.live now c k.
Proof.
  apply eq_true_iff_eq. rewrite !live_spec. split.
  - intros (found & Hk & Hlt). apply has_lookup in Hk as [Hk _]. eauto.
  - intros (found & Hk & Hlt). exists found. split; [|done].
    apply has_lookup. done.
Qed.

Lemma stored_after_has now id c (k : string) :
  Cache.live now c k = true ->
  Cache.stored (snd (Cache.has now id c)) k = Cache.stored c k.
Proof.
  intros (found & Hk & Hlt)%live_spec. unfold Cache.stored.
  rewrite Hk. assert (Cache.cache (snd (Cache.has now id c)) !! k = Some found) as ->; [|done].
  apply has_lookup. done.
Qed.

Lemma evicted_nil now c : evicted now [] c = c.
Proof.
  unfold evicted. destruct c as [m t]. cbn. f_equal.
  apply map_filter_id. intros k found _ Hin. cbn in Hin. by apply elem_of_nil in Hin.
Qed.

Lemma evicted_cons now id (rest : list string) c :
  evicted now (id :: rest) c = evicted now rest (snd (Cache.has now id c)).
Proof.
  unfold evicted. f_equal.
  - apply map_eq. intros k. apply option_eq. intros found.
    rewrite !map_lookup_filter_Some, has_lookup. cbn.
    setoid_rewrite elem_of_cons. intuition (subst; auto).
  - symmetry. apply has_subseteq.
Qed.

Lemma has_by_liveness (now now' : Z) (k : string) c :
  Cache.live now c k = Cache.live now' c k -> Cache.has now k c = Cache.has now' k c.
Proof.
  unfold Cache.live, Cache.has. destruct (Cache.cache c !! k) as [found|]; [|done].
  by intros ->.
Qed.

Lemma get_by_liveness (now now' : Z) (k : string) c :
  Cache.live now c k = Cache.live now' c k -> Cache.get now k c = Cache.get now' k c.
Proof.
  unfold Cache.live, Cache.get. destruct (Cache.cache c !! k) as [found|]; [|done].
  by intros ->.
Qed.

Lemma liveness_after_has (t now : Z) id c (k : string) :
  Cache.live t c k = Cache.live now c k ->
  Cache.live t (snd (Cache.has now id c)) k
    = Cache.live now (snd (Cache.has now id c)) k.
Proof.
  intros Hk. unfold Cache.has.
  destruct (Cache.cache c !! id) as [found|] eqn:E; [|done].
  destruct (Cache.expires found >? now); [done|]. cbn [snd].
  unfold Cache.live in *. cbn [Cache.cache].
  destruct (decide (k = id)) as [->|Hne].
  - by rewrite lookup_delete_eq.
  - by rewrite lookup_delete_ne.
Qed.

Lemma walk_stable now (force : bool) ids :
  forall (notInCache : list string) (users : list JsValue) env w,
  (forall (i : nat) (k : string),
     (i < length ids
          + length (List.filter
                      (fun k => Cache.live now (api_cache w) k && negb force) ids))%nat ->
     k ∈ ids ->
     Cache.live (clock env (ticks w + i)%nat) (api_cache w) k
       = Cache.live now (api_cache w) k) ->
  walk ids force notInCache users env w =
    (Return
       (notInCache ++
          List.filter (fun k => negb (Cache.live now (api_cache w) k && negb force)) ids,
        users ++
          map (Cache.stored (api_cache w))
            (List.filter (fun k => Cache.live now (api_cache w) k && negb force) ids)),
     {| api_cache := evicted now ids (api_cache w);
        ticks := ticks w + length ids +
                 length (List.filter
                           (fun k => Cache.live now (api_cache w) k && negb force) ids);
        requests := requests w |}).
Proof.
  induction ids as [|id rest IH]; intros notInCache users env w Hsees.
  - cbn. rewrite evicted_nil, !app_nil_r, !Nat.add_0_r. by destruct w.
  - cbn [walk]. rewrite run_bind, run_cache_has.
    set (c := api_cache w) in *.
    assert (Cache.live (clock env (ticks w)) c id = Cache.live now c id) as Hfirst.
    { rewrite <- (Nat.add_0_r (ticks w)). apply Hsees; [cbn; lia | left]. }
    rewrite Hfirst, (has_by_liveness _ now _ _ Hfirst).
    set (c1 := snd (Cache.has now id c)).
    assert (List.filter (fun k => Cache.live now c1 k && negb force) rest
            = List.filter (fun k => Cache.live now c k && negb force) rest) as Hhits.
    { apply List.filter_ext. intros k. unfold c1. by rewrite live_after_has. }
    assert (List.filter (fun k => negb (Cache.live now c1 k && negb force)) rest
            = List.filter (fun k => negb (Cache.live now c k && negb force)) rest) as Hmiss.
    { apply List.filter_ext. intros k. unfold c1. by rewrite live_after_has. }
    assert (map (Cache.stored c1)
              (List.filter (fun k => Cache.live now c k && negb force) rest)
            = map (Cache.stored c)
                (List.filter (fun k => Cache.live now c k && negb force) rest)) as Hvals.
    { apply List.map_ext_in. intros k [_ Hk]%List.filter_In.
      apply andb_true_iff in Hk as [Hk _]. by apply stored_after_has. }
    cbn [List.filter] in Hsees |- *. rewrite evicted_cons. fold c1.
    destruct (Cache.live now c id && negb force) eqn:Hhit; cbn [negb].
    + rewrite run_bind, run_cache_get. cbn [ticks api_cache requests].
      apply andb_true_iff in Hhit as [Hlive Hforce].
      assert (c1 = c) as Hc1 by (unfold c1; by rewrite (has_live _ _ _ Hlive)).
      assert (Cache.live (clock env (S (ticks w))) c id = Cache.live now c id) as Hsecond.
      { replace (S (ticks w)) with (ticks w + 1)%nat by lia.
        apply Hsees; [cbn; lia | left]. }
      assert (Cache.get (clock env (S (ticks w))) id c1 = (Cache.stored c id, c1)) as ->.
      { rewrite Hc1, (get_by_liveness _ now _ _ Hsecond). by apply get_live. }
      cbn [fst snd]. rewrite IH; cbn [ticks api_cache requests].
      * rewrite Hhits, Hmiss, Hvals. cbn [map length].
        rewrite <- app_assoc. cbn [app]. f_equal. f_equal. lia.
      * intros i k Hi Hk. rewrite Hhits in Hi. rewrite Hc1.
        replace (S (S (ticks w)) + i)%nat with (ticks w + (2 + i))%nat by lia.
        apply Hsees; [cbn [length] in *; lia | by right].
    + rewrite IH; cbn [ticks api_cache requests].
      * fold c1. rewrite Hhits, Hmiss, Hvals.
        rewrite <- app_assoc. cbn [app length]. f_equal. f_equal. lia.
      * intros i k Hi Hk. rewrite Hhits in Hi. unfold c1.
        apply liveness_after_has.
        replace (S (ticks w) + i)%nat with (ticks w + (1 + i))%nat by lia.
        apply Hsees; [cbn [length] in *; lia | by right].
Qed.

(** *** Writing the fetched users *)

Lemma write_all_other (time : nat -> Z) (data : list User.t) (k : string) :
  forall n c,
  (forall u, u ∈ data -> User.id u <> k) ->
  Cache.cache (write_all time n data c) !! k = Cache.cache c !! k.
Proof.
  induction data as [|u rest IH]; intros n c Hk; [done|].
  cbn [write_all]. rewrite IH.
  - cbn. apply lookup_insert_ne, Hk. left.
  - intros u' Hin. apply Hk. by right.
Qed.

Lemma write_all_last (time : nat -> Z) (data : list User.t) :
  forall n c (j : nat) (u : User.t),
  data !! j = Some u ->
  (forall (j' : nat) (u' : User.t),
     (j < j')%nat -> data !! j' = Some u' -> User.id u' <> User.id u) ->
  Cache.cache (write_all time n data c) !! User.id u =
    Some {| Cache.value := User.to_value u;
            Cache.expires := time (n + j)%nat + Cache.timeout c |}.
Proof.
  induction data as [|u0 rest IH]; intros n c j u Hj Hlast; [done|].
  cbn [write_all]. destruct j as [|j].
  - injection Hj as ->. rewrite write_all_other.
    + cbn. by rewrite lookup_insert_eq, Nat.add_0_r.
    + intros u' [j' Hj']%list_elem_of_lookup.
      apply (Hlast (S j')); [lia | done].
  - rewrite (IH (S n) _ j u Hj).
    + replace (S n + j)%nat with (n + S j)%nat by lia. done.
    + intros j' u' Hlt Hj'. apply (Hlast (S j')); [lia | done].
Qed.

(** *** getUsers when the walk sees the cache as at one instant *)

Lemma hit_keys_filter now c ids :
  List.filter (fun k => Cache.live now c k && negb false) ids = hit_keys now c ids.
Proof. apply List.filter_ext. intros k. apply andb_true_r. Qed.

Lemma miss_keys_filter now c ids :
  List.filter (fun k => negb (Cache.live now c k && negb false)) ids
    = miss_keys now c ids.
Proof. apply List.filter_ext. intros k. by rewrite andb_true_r. Qed.

Lemma evicted_all_live now ids c : miss_keys now c ids = [] -> evicted now ids c = c.
Proof.
  intros Hmiss. unfold evicted. destruct c as [m t]. cbn. f_equal.
  apply map_filter_id. intros k found Hk Hin. cbn in Hin.
  destruct (Cache.live now {| Cache.cache := m; Cache.timeout := t |} k) eqn:Hlive.
  - apply live_spec in Hlive as (found' & Hk' & Hlt). cbn in Hk'.
    assert (found' = found) as -> by congruence. done.
  - assert (List.In k (miss_keys now {| Cache.cache := m; Cache.timeout := t |} ids))
      as Hin'.
    { apply List.filter_In. split; [by apply list_elem_of_In | by rewrite Hlive]. }
    rewrite Hmiss in Hin'. destruct Hin'.
Qed.

Lemma getUsers_stable now ids env w :
  (length ids <= 100)%nat ->
  walk_sees now ids env w ->
  getUsers ids false env w =
    match miss_keys now (api_cache w) ids with
    | [] =>
        (Return (hit_values now (api_cache w) ids),
         {| api_cache := api_cache w;
            ticks := ticks w + length ids + length (hit_keys now (api_cache w) ids);
            requests := requests w |})
    | _ :: _ =>
        match interceptor (answer_users env (length (requests w))
                             (fetchMany (miss_keys now (api_cache w) ids))) with
        | Return data =>
            (Return (hit_values now (api_cache w) ids ++ map User.to_value data),
             {| api_cache :=
                  write_all (clock env)
                    (ticks w + length ids + length (hit_keys now (api_cache w) ids))
                    data (evicted now ids (api_cache w));
                ticks := ticks w + length ids
                         + length (hit_keys now (api_cache w) ids) + length data;
                requests := requests w
                            ++ [fetchMany (miss_keys now (api_cache w) ids)] |})
        | Throw e =>
            (Throw e,
             {| api_cache := evicted now ids (api_cache w);
                ticks := ticks w + length ids + length (hit_keys now (api_cache w) ids);
                requests := requests w
                            ++ [fetchMany (miss_keys now (api_cache w) ids)] |})
        end
    end.
Proof.
  intros Hlen Hsees.
  assert (forall (i : nat) (k : string),
            (i < length ids
                 + length (List.filter
                             (fun k => Cache.live now (api_cache w) k && negb false)
                             ids))%nat ->
            k ∈ ids ->
            Cache.live (clock env (ticks w + i)%nat) (api_cache w) k
              = Cache.live now (api_cache w) k) as Hsees'.
  { intros i k Hi. rewrite hit_keys_filter in Hi. by apply Hsees. }
  rewrite (getUsers_run ids false env w _ _ _ Hlen
             (walk_stable now false ids [] [] env w Hsees')).
  cbn [app api_cache ticks requests].
  rewrite hit_keys_filter, miss_keys_filter. fold (hit_values now (api_cache w) ids).
  destruct (miss_keys now (api_cache w) ids) as [|k ks] eqn:Hmiss; cbn [length Nat.ltb Nat.leb].
  - by rewrite (evicted_all_live _ _ _ Hmiss).
  - done.
Qed.

Lemma walk_sees_at_one_instant now ids env w :
  (forall i : nat,
     (i < length ids + length (hit_keys now (api_cache w) ids))%nat ->
     clock env (ticks w + i)%nat = now) ->
  walk_sees now ids env w.
Proof. intros Hclock i k Hi _. by rewrite Hclock. Qed.

(** *** getUsers whatever the clock does *)








Lemma sample_walk_sees (ids : list string) (many : AxiosResult (list User.t)) :
  (length ids + length (hit_keys 5 (api_cache sample_world) ids) <= 900)%nat ->
  walk_sees 5 ids
    (sample_env (fun n => 5 + Z.of_nat n) (Response JsNull) many
       (NoResponse (AxiosError "")))
    sample_world.
Proof.
  intros Hfew i k Hi _. cbn [sample_env clock sample_world ticks api_cache].
  unfold Cache.live.
  destruct (Cache.cache (Cache.set 0 "a" (JsString "X") None (Cache.new 1000)) !! k)
    as [found|] eqn:E; [|done].
  assert (Cache.expires found = 1000) as ->.
  { unfold Cache.set in E. cbn in E.
    destruct (decide (k = "a"%string)) as [->|Hne].
    - rewrite lookup_insert_eq in E. by injection E as <-.
    - by rewrite lookup_insert_ne, lookup_empty in E. }
  transitivity true; [|done].
  rewrite Z.gtb_ltb. apply Z.ltb_lt.
  change (5 + Z.of_nat (0 + i) < 1000). lia.
Defined.


(** *** Occurrences *)










Lemma remote_failure_propagates_witness :
  fst (getUser "b" false
         (sample_env (fun _ => 5) (NoResponse (AxiosError "ECONNRESET"))
            (NoResponse (AxiosError "ECONNRESET")) (NoResponse (AxiosError "")))
         sample_world) = Throw (AxiosError "ECONNRESET") /\
  fst (getUsers ["a"; "b"]%string false
         (sample_env (fun _ => 5) (NoResponse (AxiosError "ECONNRESET"))
            (NoResponse (AxiosError "ECONNRESET")) (NoResponse (AxiosError "")))
         sample_world) = Throw (AxiosError "ECONNRESET").
Proof.
  destruct (remote_failure_propagates
              (sample_env (fun _ => 5) (NoResponse (AxiosError "ECONNRESET"))
                 (NoResponse (AxiosError "ECONNRESET")) (NoResponse (AxiosError "")))
              sample_world (AxiosError "ECONNRESET")) as [Hone Hmany].
  - reflexivity.
  - reflexivity.
  - split.
    + apply Hone. left. reflexivity.
    + apply Hmany. vm_compute. discriminate.
Defined.

End ManyKeys.

(** * Further properties of the cache *)

Section CacheMore.
Implicit Types (c : Cache.t) (k : string) (now : Z).

Lemma absent_reads_null now k c :
  Cache.cache c !! k = None ->
  Cache.get now k c = (JsNull, c) /\ Cache.has now k c = (false, c).
Proof. intros Hk. unfold Cache.get, Cache.has. by rewrite Hk. Qed.

(** X1. [set] overwrites without merging: a [set] on [k] makes any
    earlier [set] on [k] unobservable, the whole cache being what the
    later [set] alone would have produced; the entry then lives for the
    later call's duration, counted from the later call. *)
Theorem set_overwrites (now1 now2 : Z) k (v1 v2 : JsValue) (ttl1 ttl2 : option Z) c :
  Cache.set now2 k v2 ttl2 (Cache.set now1 k v1 ttl1 c) = Cache.set now2 k v2 ttl2 c /\
  forall t : Z,
    fst (Cache.get (now2 + t) k (Cache.set now2 k v2 ttl2 (Cache.set now1 k v1 ttl1 c))) =
      if t <? match ttl2 with Some d => d | None => Cache.timeout c end
      then v2 else JsNull.
Proof.
  assert (Cache.set now2 k v2 ttl2 (Cache.set now1 k v1 ttl1 c)
          = Cache.set now2 k v2 ttl2 c) as ->.
  { unfold Cache.set. cbn. by rewrite insert_insert_eq. }
  split; [done|]. intros t. unfold Cache.get, Cache.set. cbn.
  rewrite lookup_insert_eq. cbn.
  set (d := match ttl2 with Some d => d | None => Cache.timeout c end).
  rewrite Z.gtb_ltb. destruct (t <? d) eqn:E.
  - apply Z.ltb_lt in E.
    assert ((now2 + t <? now2 + d) = true) as ->; [apply Z.ltb_lt; lia | done].
  - apply Z.ltb_ge in E.
    assert ((now2 + t <? now2 + d) = false) as ->; [apply Z.ltb_ge; lia | done].
Qed.

(** X2. [delete(k)] forgets [k] whatever its expiry: afterwards [get(k)]
    is [null] and [has(k)] is [false] at every instant and change nothing;
    deleting twice is deleting once; deleting a key the cache does not
    hold changes nothing; and a [set] followed by [delete] of the same key
    leaves what [delete] alone leaves. *)
Theorem delete_forgets now k c :
  Cache.get now k (Cache.delete k c) = (JsNull, Cache.delete k c) /\
  Cache.has now k (Cache.delete k c) = (false, Cache.delete k c) /\
  Cache.delete k (Cache.delete k c) = Cache.delete k c /\
  (Cache.cache c !! k = None -> Cache.delete k c = c) /\
  (forall (now' : Z) (v : JsValue) (ttl : option Z),
     Cache.delete k (Cache.set now' k v ttl c) = Cache.delete k c).
Proof.
  assert (Cache.cache (Cache.delete k c) !! k = None) as Hk by apply lookup_delete_eq.
  destruct (absent_reads_null now k _ Hk) as [Hget Hhas].
  split_and!; [done | done | | |].
  - unfold Cache.delete. cbn. by rewrite delete_delete_eq.
  - intros Hnone. unfold Cache.delete. rewrite delete_id by done. by destruct c.
  - intros now' v ttl. unfold Cache.delete, Cache.set. cbn. by rewrite delete_insert_eq.
Qed.

(** X3. [clear()] forgets every key and keeps the default timeout: after
    it every [get] is [null] and every [has] is [false], at any instant
    and without effect, and the next [set] without a duration still uses
    the timeout given at construction. *)
Theorem clear_forgets_everything now k (v : JsValue) c :
  Cache.get now k (Cache.clear c) = (JsNull, Cache.clear c) /\
  Cache.has now k (Cache.clear c) = (false, Cache.clear c) /\
  Cache.clear c = Cache.new (Cache.timeout c) /\
  Cache.cache (Cache.set now k v None (Cache.clear c)) !! k =
    Some {| Cache.value := v; Cache.expires := now + Cache.timeout c |}.
Proof.
  assert (Cache.cache (Cache.clear c) !! k = None) as Hk by apply lookup_empty.
  destruct (absent_reads_null now k _ Hk) as [Hget Hhas].
  split_and!; [done | done | done |].
  unfold Cache.set. cbn. by rewrite lookup_insert_eq.
Qed.

Lemma gone_after_false (now now' : Z) k c :
  fst (Cache.has now k c) = false ->
  Cache.has now' k (snd (Cache.has now k c)) = (false, snd (Cache.has now k c)) /\
  Cache.get now' k (snd (Cache.has now k c)) = (JsNull, snd (Cache.has now k c)).
Proof.
  intros Hfalse.
  assert (Cache.cache (snd (Cache.has now k c)) !! k = None) as Hk.
  { revert Hfalse. unfold Cache.has.
    destruct (Cache.cache c !! k) as [found|] eqn:E; [|done].
    destruct (Cache.expires found >? now); [done|].
    intros _. apply lookup_delete_eq. }
  destruct (absent_reads_null now' k _ Hk). done.
Qed.

(** X4. Once an entry has been seen expired it is gone for good: if
    [has(k)] answers [false], then on the cache it leaves behind [has(k)]
    is [false] and [get(k)] is [null] at every instant, earlier ones
    included, and neither changes the cache any further. *)
Theorem expired_stays_gone (now now' : Z) k c :
  fst (Cache.has now k c) = false ->
  Cache.has now' k (snd (Cache.has now k c)) = (false, snd (Cache.has now k c)) /\
  Cache.get now' k (snd (Cache.has now k c)) = (JsNull, snd (Cache.has now k c)).
Proof. apply gone_after_false. Qed.

Lemma expired_stays_gone_witness :
  Cache.has 3 "a" (snd (Cache.has 2000 "a" (Cache.set 0 "a" JsNull None (Cache.new 1000))))
    = (false, snd (Cache.has 2000 "a" (Cache.set 0 "a" JsNull None (Cache.new 1000)))).
Proof.
  apply (expired_stays_gone 2000 3 "a" (Cache.set 0 "a" JsNull None (Cache.new 1000))).
  reflexivity.
Defined.

(** X5. Liveness only decreases with time: an entry that [has] reports
    live at some instant is reported live, and read with the same value
    and without any change to the cache, at every earlier instant. *)
Theorem live_at_earlier_instants (now now' : Z) k c :
  fst (Cache.has now k c) = true ->
  now' <= now ->
  Cache.has now' k c = (true, c) /\
  Cache.get now' k c = (Cache.stored c k, c) /\
  Cache.get now k c = (Cache.stored c k, c).
Proof.
  rewrite has_fst. intros Hlive Hle.
  assert (Cache.live now' c k = true) as Hlive'.
  { apply live_spec in Hlive as (found & Hk & Hlt).
    apply live_spec. exists found. split; [done | lia]. }
  by rewrite (has_live _ _ _ Hlive'), (get_live _ _ _ Hlive'), (get_live _ _ _ Hlive).
Qed.

Lemma live_at_earlier_instants_witness :
  Cache.has 10 "a" (Cache.set 0 "a" (JsNumber 7) None (Cache.new 1000))
    = (true, Cache.set 0 "a" (JsNumber 7) None (Cache.new 1000)).
Proof.
  apply (live_at_earlier_instants 999 10 "a"
           (Cache.set 0 "a" (JsNumber 7) None (Cache.new 1000)));
    [reflexivity | lia].
Defined.

(** X6. Observing twice at one instant is observing once: a second
    [get(k)] at the same instant returns what the first returned and
    leaves the cache as the first left it, and likewise for [has]. *)
Theorem observation_idempotent now k c :
  Cache.get now k (snd (Cache.get now k c))
    = (fst (Cache.get now k c), snd (Cache.get now k c)) /\
  Cache.has now k (snd (Cache.has now k c))
    = (fst (Cache.has now k c), snd (Cache.has now k c)).
Proof.
  rewrite <- has_snd_get, get_fst, has_fst.
  destruct (Cache.live now c k) eqn:Hlive.
  - rewrite (has_live _ _ _ Hlive). cbn [snd].
    by rewrite (get_live _ _ _ Hlive), (has_live _ _ _ Hlive).
  - assert (fst (Cache.has now k c) = false) as Hfalse by by rewrite has_fst.
    destruct (gone_after_false now now k c Hfalse) as [-> ->]. done.
Qed.

End CacheMore.

(** * Further properties of getUser, getUsers and verifyUser *)

Section ClientMore.
Import AccountsAPI.
Implicit Types (env : Env) (w : World) (id code : string) (ids : list string).

Lemma write_all_keeps_timeout (time : nat -> Z) (data : list User.t) :
  forall n (c : Cache.t), Cache.timeout (write_all time n data c) = Cache.timeout c.
Proof.
  induction data as [|u rest IH]; intros n c; [done|].
  cbn [write_all]. by rewrite IH.
Qed.

Lemma walk_force ids :
  forall (notInCache : list string) (users : list JsValue) env w,
  exists w1,
    walk ids true notInCache users env w = (Return (notInCache ++ ids, users), w1) /\
    requests w1 = requests w.
Proof.
  induction ids as [|id rest IH]; intros notInCache users env w.
  - exists w. by rewrite app_nil_r.
  - cbn [walk]. rewrite run_bind, run_cache_has, andb_false_r.
    destruct (IH (notInCache ++ [id]) users env
                {| api_cache := snd (Cache.has (clock env (ticks w)) id (api_cache w));
                   ticks := S (ticks w); requests := requests w |})
      as (w1 & Hrun & Hreq).
    exists w1. rewrite Hrun, <- app_assoc. done.
Qed.

Lemma getUser_served env w id (found : Cache.Entry) :
  Cache.cache (api_cache w) !! id = Some found ->
  clock env (ticks w) < Cache.expires found ->
  clock env (S (ticks w)) < Cache.expires found ->
  getUser id false env w =
    (Return (Cache.value found),
     {| api_cache := api_cache w; ticks := S (S (ticks w)); requests := requests w |}).
Proof.
  intros Hk H1 H2.
  assert (Cache.live (clock env (ticks w)) (api_cache w) id = true) as Hl1
    by (apply live_spec; eauto).
  assert (Cache.live (clock env (S (ticks w))) (api_cache w) id = true) as Hl2
    by (apply live_spec; eauto).
  rewrite (getUser_hit_run _ _ _ Hl1), (get_live _ _ _ Hl2).
  unfold Cache.stored. by rewrite Hk.
Qed.

(** X7. With [force] true [getUsers] asks the remote for every key, in
    input order, whatever the cache holds and whatever the clock reads,
    and returns exactly the fetched users: no cached value enters the
    result. An empty list of keys returns the empty list without reading
    the cache or sending anything, for either value of [force]. *)
Theorem getUsers_force env w ids :
  (length ids <= 100)%nat ->
  (forall force : bool, ids = [] -> getUsers ids force env w = (Return [], w)) /\
  (ids <> [] ->
     requests (snd (getUsers ids true env w)) = requests w ++ [fetchMany ids] /\
     forall data,
       answer_users env (length (requests w)) (fetchMany ids) = Response data ->
       fst (getUsers ids true env w) = Return (map User.to_value data)).
Proof.
  intros Hlen. split; [by intros force ->|]. intros Hne.
  destruct (walk_force ids [] [] env w) as (w1 & Hwalk & Hreq).
  cbn [app] in Hwalk. rewrite (getUsers_run _ _ _ _ _ _ _ Hlen Hwalk), Hreq.
  destruct ids as [|id rest]; [done|]. cbn [length Nat.ltb Nat.leb].
  split; [by destruct (interceptor _)|]. by intros data ->.
Qed.

Lemma getUsers_force_witness :
  fst (getUsers ["a"; "b"]%string true
         (sample_env (fun _ => 5) (Response JsNull) (Response [User.mk "b" []])
            (NoResponse (AxiosError "")))
         sample_world) = Return [User.to_value (User.mk "b" [])] /\
  requests (snd (getUsers ["a"; "b"]%string true
                   (sample_env (fun _ => 5) (Response JsNull) (Response [User.mk "b" []])
                      (NoResponse (AxiosError "")))
                   sample_world)) = [fetchMany ["a"; "b"]%string].
Proof.
  destruct (getUsers_force
              (sample_env (fun _ => 5) (Response JsNull) (Response [User.mk "b" []])
                 (NoResponse (AxiosError "")))
              sample_world ["a"; "b"]%string) as [_ H]; [cbn; lia|].
  destruct (H ltac:(discriminate)) as [Hreq Hres].
  split; [apply (Hres [User.mk "b" []] eq_refl) | exact Hreq].
Defined.

Local Ltac sent_is l :=
  exists l; split; [by rewrite ?app_nil_r | cbn; lia].

(** X8. No call sends more than one request, and none changes the
    default timeout: whatever the environment, the cache, the keys and
    [force], the request log after [getUser], [getUsers] or [verifyUser]
    is the log before with at most one request appended, and the cache
    still has the timeout it was constructed with. *)
Theorem at_most_one_request env w :
  (forall id (force : bool),
     (exists sent, requests (snd (getUser id force env w)) = requests w ++ sent /\
                   (length sent <= 1)%nat) /\
     Cache.timeout (api_cache (snd (getUser id force env w)))
       = Cache.timeout (api_cache w)) /\
  (forall ids (force : bool),
     (exists sent, requests (snd (getUsers ids force env w)) = requests w ++ sent /\
                   (length sent <= 1)%nat) /\
     Cache.timeout (api_cache (snd (getUsers ids force env w)))
       = Cache.timeout (api_cache w)) /\
  (forall code,
     (exists sent, requests (snd (verifyUser code env w)) = requests w ++ sent /\
                   (length sent <= 1)%nat) /\
     Cache.timeout (api_cache (snd (verifyUser code env w)))
       = Cache.timeout (api_cache w)).
Proof.
  split_and!.
  - intros id force.
    destruct (has_subseteq (clock env (ticks w)) id (api_cache w)) as [_ Ht].
    destruct (Cache.live (clock env (ticks w)) (api_cache w) id) eqn:Hlive;
      [destruct force|].
    + rewrite (getUser_fetch_run _ _ _ true (or_intror eq_refl)).
      destruct (interceptor _); cbn; (split; [sent_is [fetchOne id] | done]).
    + rewrite (getUser_hit_run _ _ _ Hlive). cbn [snd requests api_cache]. split.
      * sent_is (@nil Request).
      * rewrite <- has_snd_get. apply has_subseteq.
    + rewrite (getUser_fetch_run _ _ _ force (or_introl Hlive)).
      destruct (interceptor _); cbn; (split; [sent_is [fetchOne id] | done]).
  - intros ids force.
    destruct (decide (length ids <= 100)%nat) as [Hlen|Hlen].
    + destruct (walk_returns ids force [] [] env w)
        as (toFetch & found & w1 & Hwalk & _ & _ & Hreq & _ & Ht).
      cbn [app] in Hwalk. rewrite (getUsers_run _ _ _ _ _ _ _ Hlen Hwalk).
      destruct (0 <? length toFetch)%nat.
      * destruct (interceptor _); cbn; rewrite Hreq;
          (split; [sent_is [fetchMany toFetch]|]);
          [by rewrite write_all_keeps_timeout | done].
      * cbn. rewrite Hreq. split; [sent_is (@nil Request) | done].
    + rewrite getUsers_guard_run by lia. cbn.
      split; [sent_is (@nil Request) | done].
  - intros code. unfold verifyUser. rewrite run_bind, run_await_request.
    destruct (interceptor _); cbn;
      (split; [sent_is [POST "/users/verify" [("code"%string, code)]] | done]).
Qed.

(** X9. A failed verification leaves no trace in the cache: when the
    request of [verifyUser] is rejected with [e], the call rejects with
    [e], the cache is exactly as before, the clock was not read, and the
    one request is in the log. *)
Theorem verifyUser_failure env w code (e : JsError) :
  interceptor (answer_verify env (length (requests w))
                 (POST "/users/verify" [("code"%string, code)])) = Throw e ->
  verifyUser code env w =
    (Throw e,
     {| api_cache := api_cache w; ticks := ticks w;
        requests := requests w ++ [POST "/users/verify" [("code"%string, code)]] |}).
Proof.
  intros Hfail. unfold verifyUser. by rewrite run_bind, run_await_request, Hfail.
Qed.

Lemma verifyUser_failure_witness :
  fst (verifyUser "c"
         (sample_env (fun _ => 5) (Response JsNull) (Response [])
            (ErrorResponse "Invalid code" 400))
         sample_world) = Throw (AccountsAPIError "Invalid code" 400).
Proof.
  rewrite (verifyUser_failure
             (sample_env (fun _ => 5) (Response JsNull) (Response [])
                (ErrorResponse "Invalid code" 400))
             sample_world "c" (AccountsAPIError "Invalid code" 400) eq_refl).
  reflexivity.
Defined.

(** X10. What the caller sees of a transport failure is what the
    response interceptor makes of it: an HTTP error response with message
    [m] and status [s] rejects [getUser] (when it fetches), [getUsers]
    (with [force] and at least one key) and [verifyUser] with
    [AccountsAPIError(m, s)], and an error without response rejects them
    with that very error. *)
Theorem transport_errors_surface env w :
  (forall id (force : bool) m s,
     fst (Cache.has (clock env (ticks w)) id (api_cache w)) = false \/ force = true ->
     answer_user env (length (requests w)) (fetchOne id) = ErrorResponse m s ->
     fst (getUser id force env w) = Throw (AccountsAPIError m s)) /\
  (forall id (force : bool) err,
     fst (Cache.has (clock env (ticks w)) id (api_cache w)) = false \/ force = true ->
     answer_user env (length (requests w)) (fetchOne id) = NoResponse err ->
     fst (getUser id force env w) = Throw err) /\
  (forall ids m s,
     (length ids <= 100)%nat -> ids <> [] ->
     answer_users env (length (requests w)) (fetchMany ids) = ErrorResponse m s ->
     fst (getUsers ids true env w) = Throw (AccountsAPIError m s)) /\
  (forall code m s,
     answer_verify env (length (requests w))
       (POST "/users/verify" [("code"%string, code)]) = ErrorResponse m s ->
     fst (verifyUser code env w) = Throw (AccountsAPIError m s)).
Proof.
  split_and!.
  - intros id force m s Hfetch Hans. rewrite has_fst in Hfetch.
    by rewrite (getUser_fetch_run _ _ _ _ Hfetch), Hans.
  - intros id force err Hfetch Hans. rewrite has_fst in Hfetch.
    by rewrite (getUser_fetch_run _ _ _ _ Hfetch), Hans.
  - intros ids m s Hlen Hne Hans.
    destruct (walk_force ids [] [] env w) as (w1 & Hwalk & Hreq).
    cbn [app] in Hwalk. rewrite (getUsers_run _ _ _ _ _ _ _ Hlen Hwalk), Hreq, Hans.
    by destruct ids.
  - intros code m s Hans. unfold verifyUser.
    by rewrite run_bind, run_await_request, Hans.
Qed.

Lemma transport_errors_surface_witness :
  fst (getUser "b" false
         (sample_env (fun _ => 5) (ErrorResponse "Unknown user" 404) (Response [])
            (NoResponse (AxiosError "")))
         sample_world) = Throw (AccountsAPIError "Unknown user" 404).
Proof.
  destruct (transport_errors_surface
              (sample_env (fun _ => 5) (ErrorResponse "Unknown user" 404) (Response [])
                 (NoResponse (AxiosError "")))
              sample_world) as [H _].
  apply (H "b"%string false "Unknown user"%string 404); [left; reflexivity | reflexivity].
Defined.

(** *** Calls in sequence *)

(** X11. A fetched user is served from the cache while it lives: after
    a [getUser] that fetched [data] for [id], a second [getUser(id)] whose
    two clock readings fall before the write instant plus the default
    timeout returns [data], sends nothing and leaves the cache untouched;
    one whose first reading falls at or after that instant fetches
    again. *)
Theorem getUser_twice env w id (force : bool) (data : JsValue) :
  fst (Cache.has (clock env (ticks w)) id (api_cache w)) = false \/ force = true ->
  answer_user env (length (requests w)) (fetchOne id) = Response data ->
  (clock env (S (S (ticks w))) < clock env (S (ticks w)) + Cache.timeout (api_cache w) ->
   clock env (S (S (S (ticks w)))) < clock env (S (ticks w)) + Cache.timeout (api_cache w) ->
   getUser id false env (snd (getUser id force env w)) =
     (Return data,
      {| api_cache := api_cache (snd (getUser id force env w));
         ticks := S (S (S (S (ticks w))));
         requests := requests w ++ [fetchOne id] |})) /\
  (clock env (S (ticks w)) + Cache.timeout (api_cache w) <= clock env (S (S (ticks w))) ->
   requests (snd (getUser id false env (snd (getUser id force env w)))) =
     requests w ++ [fetchOne id; fetchOne id]).
Proof.
  intros Hfetch Hans. rewrite has_fst in Hfetch.
  rewrite (getUser_fetch_run _ _ _ _ Hfetch), Hans. cbn [interceptor snd].
  destruct (has_subseteq (clock env (ticks w)) id (api_cache w)) as [_ Ht].
  split.
  - intros H1 H2.
    rewrite (getUser_served _ _ id
               {| Cache.value := data;
                  Cache.expires := clock env (S (ticks w)) + Cache.timeout (api_cache w) |});
      cbn [ticks api_cache requests Cache.value Cache.expires]; try done.
    unfold Cache.set. cbn. by rewrite lookup_insert_eq, Ht.
  - intros Hlate.
    rewrite getUser_fetch_run; cbn [ticks api_cache requests].
    + destruct (interceptor _); cbn; by rewrite <- app_assoc.
    + left. unfold Cache.live, Cache.set. cbn. rewrite lookup_insert_eq. cbn.
      rewrite Ht, Z.gtb_ltb. apply Z.ltb_ge. lia.
Qed.

Lemma getUser_twice_witness :
  getUser "b" false
    (sample_env (fun n => Z.of_nat n) (Response (JsString "B")) (Response [])
       (NoResponse (AxiosError "")))
    (snd (getUser "b" false
            (sample_env (fun n => Z.of_nat n) (Response (JsString "B")) (Response [])
               (NoResponse (AxiosError "")))
            sample_world)) =
  (Return (JsString "B"),
   {| api_cache :=
        api_cache (snd (getUser "b" false
                          (sample_env (fun n => Z.of_nat n) (Response (JsString "B"))
                             (Response []) (NoResponse (AxiosError "")))
                          sample_world));
      ticks := 4;
      requests := [fetchOne "b"] |}).
Proof.
  destruct (getUser_twice
              (sample_env (fun n => Z.of_nat n) (Response (JsString "B")) (Response [])
                 (NoResponse (AxiosError "")))
              sample_world "b" false (JsString "B")) as [H _];
    [left; reflexivity | reflexivity |].
  apply H; reflexivity.
Defined.

(** X12. [verifyUser] primes the cache for [getUser]: after a successful
    verification, a [getUser] for the verified user's [id] whose two
    clock readings fall before the write instant plus the default timeout
    returns that user without sending a request. *)
Theorem verifyUser_then_getUser env w code (r : VerifyUserResponse) :
  answer_verify env (length (requests w))
    (POST "/users/verify" [("code"%string, code)]) = Response r ->
  clock env (S (ticks w)) < clock env (ticks w) + Cache.timeout (api_cache w) ->
  clock env (S (S (ticks w))) < clock env (ticks w) + Cache.timeout (api_cache w) ->
  getUser (User.id (user r)) false env (snd (verifyUser code env w)) =
    (Return (User.to_value (user r)),
     {| api_cache := api_cache (snd (verifyUser code env w));
        ticks := S (S (S (ticks w)));
        requests := requests w ++ [POST "/users/verify" [("code"%string, code)]] |}).
Proof.
  intros Hans H1 H2.
  assert (verifyUser code env w =
    (Return r,
     {| api_cache :=
          Cache.set (clock env (ticks w)) (User.id (user r))
            (User.to_value (user r)) None (api_cache w);
        ticks := S (ticks w);
        requests := requests w ++ [POST "/users/verify" [("code"%string, code)]] |}))
    as ->.
  { unfold verifyUser. rewrite run_bind, run_await_request, Hans. cbn [interceptor].
    by rewrite run_bind, run_cache_set. }
  cbn [snd].
  rewrite (getUser_served _ _ _
             {| Cache.value := User.to_value (user r);
                Cache.expires := clock env (ticks w) + Cache.timeout (api_cache w) |});
    cbn [ticks api_cache requests Cache.value Cache.expires]; try done.
  unfold Cache.set. cbn. by rewrite lookup_insert_eq.
Qed.

Lemma verifyUser_then_getUser_witness :
  fst (getUser "u9" false
         (sample_env (fun n => Z.of_nat n) (Response JsNull) (Response [])
            (Response {| user := User.mk "u9" []; scope := basic |}))
         (snd (verifyUser "c"
                 (sample_env (fun n => Z.of_nat n) (Response JsNull) (Response [])
                    (Response {| user := User.mk "u9" []; scope := basic |}))
                 sample_world)))
    = Return (User.to_value (User.mk "u9" [])).
Proof.
  exact (f_equal fst
           (verifyUser_then_getUser
              (sample_env (fun n => Z.of_nat n) (Response JsNull) (Response [])
                 (Response {| user := User.mk "u9" []; scope := basic |}))
              sample_world "c" {| user := User.mk "u9" []; scope := basic |}
              eq_refl eq_refl eq_refl)).
Defined.

(** X13. [getUsers] primes the cache for [getUser]: when the walk sees
    the cache as it is at an instant [now] and the fetch succeeds, at
    whatever instants the fetched users are written, a later [getUser]
    for the [id] of a fetched user (the last one in the response with
    that [id]) whose two clock readings fall before that user's write
    instant plus the default timeout returns that user without sending a
    request. *)
Theorem getUsers_then_getUser now ids env w (data : list User.t) (j : nat) (u : User.t) :
  (length ids <= 100)%nat ->
  walk_sees now ids env w ->
  miss_keys now (api_cache w) ids <> [] ->
  answer_users env (length (requests w))
    (fetchMany (miss_keys now (api_cache w) ids)) = Response data ->
  data !! j = Some u ->
  (forall (j' : nat) (u' : User.t),
     (j < j')%nat -> data !! j' = Some u' -> User.id u' <> User.id u) ->
  clock env (ticks (snd (getUsers ids false env w)))
    < clock env (ticks w + length ids + length (hit_keys now (api_cache w) ids) + j)%nat
      + Cache.timeout (api_cache w) ->
  clock env (S (ticks (snd (getUsers ids false env w))))
    < clock env (ticks w + length ids + length (hit_keys now (api_cache w) ids) + j)%nat
      + Cache.timeout (api_cache w) ->
  getUser (User.id u) false env (snd (getUsers ids false env w)) =
    (Return (User.to_value u),
     {| api_cache := api_cache (snd (getUsers ids false env w));
        ticks := S (S (ticks (snd (getUsers ids false env w))));
        requests := requests (snd (getUsers ids false env w)) |}).
Proof.
  intros Hlen Hclock Hmiss Hans Hj Hlast.
  rewrite (getUsers_stable now ids env w Hlen Hclock).
  destruct (miss_keys now (api_cache w) ids) as [|k ks] eqn:E; [done|].
  rewrite Hans. cbn [interceptor snd ticks]. intros H1 H2.
  rewrite (getUser_served _ _ _
           {| Cache.value := User.to_value u;
              Cache.expires :=
                clock env (ticks w + length ids
                           + length (hit_keys now (api_cache w) ids) + j)%nat
                + Cache.timeout (api_cache w) |});
    cbn [ticks api_cache requests Cache.value Cache.expires]; try done.
  by rewrite (write_all_last _ _ _ _ j u Hj Hlast).
Qed.

Lemma getUsers_then_getUser_witness :
  fst (getUser "b" false
         (sample_env (fun n => 5 + Z.of_nat n) (Response JsNull)
            (Response [User.mk "b" []]) (NoResponse (AxiosError "")))
         (snd (getUsers ["a"; "b"]%string false
                 (sample_env (fun n => 5 + Z.of_nat n) (Response JsNull)
                    (Response [User.mk "b" []]) (NoResponse (AxiosError "")))
                 sample_world)))
    = Return (User.to_value (User.mk "b" [])).
Proof.
  assert (length ["a"; "b"]%string <= 100)%nat as Hlen by (cbn; lia).
  assert (forall (j' : nat) (u' : User.t),
            (0 < j')%nat -> [User.mk "b" []] !! j' = Some u' ->
            User.id u' <> User.id (User.mk "b" [])) as Hlast.
  { intros j' u' Hlt Hj'. destruct j' as [|j']; [lia | discriminate]. }
  assert (length ["a"; "b"]%string
          + length (hit_keys 5 (api_cache sample_world) ["a"; "b"]%string) <= 900)%nat
    as Hfew by (vm_compute; lia).
  exact (f_equal fst
           (getUsers_then_getUser 5 ["a"; "b"]%string
              (sample_env (fun n => 5 + Z.of_nat n) (Response JsNull)
                 (Response [User.mk "b" []]) (NoResponse (AxiosError "")))
              sample_world [User.mk "b" []] 0 (User.mk "b" [])
              Hlen (sample_walk_sees _ _ Hfew) ltac:(discriminate) eq_refl eq_refl Hlast
              eq_refl eq_refl)).
Defined.

(** X14. Fetched users are cached under the [id] they carry, not under
    the key that was asked for: when the walk sees the cache as it is at
    an instant [now], at whatever instants the fetched users are written,
    a requested key that is not live at [now] and whose [id] no returned
    user carries is absent from the cache after the call, so the next
    lookup misses again. *)
Theorem unreturned_key_stays_absent now ids env w (data : list User.t) (k : string) :
  (length ids <= 100)%nat ->
  walk_sees now ids env w ->
  k ∈ ids ->
  Cache.live now (api_cache w) k = false ->
  answer_users env (length (requests w))
    (fetchMany (miss_keys now (api_cache w) ids)) = Response data ->
  (forall u, u ∈ data -> User.id u <> k) ->
  Cache.cache (api_cache (snd (getUsers ids false env w))) !! k = None /\
  forall now' : Z,
    fst (Cache.has now' k (api_cache (snd (getUsers ids false env w)))) = false.
Proof.
  intros Hlen Hclock Hin Hdead Hans Hother.
  assert (Cache.cache (api_cache (snd (getUsers ids false env w))) !! k = None) as Hk.
  { rewrite (getUsers_stable now ids env w Hlen Hclock).
    destruct (miss_keys now (api_cache w) ids) as [|k0 ks] eqn:E.
    - assert (List.In k (miss_keys now (api_cache w) ids)) as Hin'.
      { apply List.filter_In. split; [by apply list_elem_of_In | by rewrite Hdead]. }
      rewrite E in Hin'. destruct Hin'.
    - rewrite Hans. cbn [interceptor snd api_cache].
      rewrite write_all_other by done. unfold evicted. cbn.
      apply map_lookup_filter_None. right. intros found Hfound HP. cbn in HP.
      specialize (HP Hin).
      assert (Cache.live now (api_cache w) k = true) as Hlive
        by (apply live_spec; eauto).
      congruence. }
  split; [done|]. intros now'.
  by destruct (absent_reads_null now' k _ Hk) as [_ ->].
Qed.

Lemma unreturned_key_stays_absent_witness :
  Cache.cache
    (api_cache
       (snd (getUsers ["a"; "b"]%string false
               (sample_env (fun n => 5 + Z.of_nat n) (Response JsNull)
                  (Response [User.mk "zz" []]) (NoResponse (AxiosError "")))
               sample_world))) !! "b" = None.
Proof.
  apply (unreturned_key_stays_absent 5 ["a"; "b"]%string
           (sample_env (fun n => 5 + Z.of_nat n) (Response JsNull)
              (Response [User.mk "zz" []]) (NoResponse (AxiosError "")))
           sample_world [User.mk "zz" []] "b").
  - cbn. lia.
  - apply sample_walk_sees. vm_compute. lia.
  - apply list_elem_of_In. right. left. reflexivity.
  - reflexivity.
  - reflexivity.
  - intros u Hu. apply list_elem_of_In in Hu. destruct Hu as [<- | []]. discriminate.
Defined.

(** X15. The timeout of a fresh client: a client constructed without
    [cacheTimeout], or with [cacheTimeout] 0, caches the first fetched
    user for 300000 ms, and one constructed with a non-zero [cacheTimeout]
    for that long; its first [getUser] always fetches, as the second
    request after the constructor's own [GET /me]. *)
Theorem fresh_client_timeout env (cacheTimeout : option Z) id (force : bool)
    (data : JsValue) :
  answer_user env 1 (fetchOne id) = Response data ->
  fst (getUser id force env (new cacheTimeout)) = Return data /\
  requests (snd (getUser id force env (new cacheTimeout))) = [GET "/me" []; fetchOne id] /\
  (cacheTimeout = None \/ cacheTimeout = Some 0 ->
   Cache.cache (api_cache (snd (getUser id force env (new cacheTimeout)))) !! id =
     Some {| Cache.value := data; Cache.expires := clock env 1 + 300000 |}) /\
  (forall t, cacheTimeout = Some t -> t <> 0 ->
   Cache.cache (api_cache (snd (getUser id force env (new cacheTimeout)))) !! id =
     Some {| Cache.value := data; Cache.expires := clock env 1 + t |}).
Proof.
  intros Hans.
  rewrite (getUser_fetch_run env (new cacheTimeout) id force (or_introl eq_refl)).
  cbn [new requests length ticks api_cache]. rewrite Hans.
  cbn [interceptor fst snd requests api_cache app].
  split_and!; [done | done | |].
  - intros [-> | ->]; cbn; by rewrite lookup_insert_eq.
  - intros t -> Hne. cbn. rewrite lookup_insert_eq.
    by destruct (Z.eqb_spec t 0).
Qed.

Lemma fresh_client_timeout_witness :
  Cache.cache
    (api_cache
       (snd (getUser "b" false
               (sample_env (fun _ => 5) (Response (JsString "B")) (Response [])
                  (NoResponse (AxiosError "")))
               (new (Some 0))))) !! "b"
    = Some {| Cache.value := JsString "B"; Cache.expires := 5 + 300000 |}.
Proof.
  destruct (fresh_client_timeout
              (sample_env (fun _ => 5) (Response (JsString "B")) (Response [])
                 (NoResponse (AxiosError "")))
              (Some 0) "b" false (JsString "B") eq_refl) as (_ & _ & H & _).
  apply H. right. reflexivity.
Defined.

End ClientMore.

(** * The request parameter built by join *)

Section JoinFacts.
Implicit Types (sep : Ascii.ascii) (s x : string) (l : list string).

Lemma split_on_free sep s : free_of sep s = true -> split_on sep s = [s].
Proof.
  induction s as [|c s IH]; [done|]. cbn [free_of split_on].
  destruct (Ascii.eqb c sep); [done|]. cbn [negb andb]. intros Hs. by rewrite (IH Hs).
Qed.

Lemma split_on_app sep x s :
  free_of sep x = true -> split_on sep (x +:+ String sep s) = x :: split_on sep s.
Proof.
  induction x as [|c x IH].
  - intros _. change (EmptyString +:+ String sep s) with (String sep s).
    cbn [split_on]. by rewrite Ascii.eqb_refl.
  - change (String c x +:+ String sep s) with (String c (x +:+ String sep s)).
    cbn [free_of split_on].
    destruct (Ascii.eqb c sep); [done|]. cbn [negb andb]. intros Hx. by rewrite (IH Hx).
Qed.

Lemma split_on_join sep l :
  l <> [] ->
  Forall (fun x => free_of sep x = true) l ->
  split_on sep (join (String sep EmptyString) l) = l.
Proof.
  intros Hne Hfree. induction Hfree as [|x rest Hx Hrest IH]; [done|].
  destruct rest as [|y rest].
  - cbn. by apply split_on_free.
  - change (join (String sep EmptyString) (x :: y :: rest))
      with (x +:+ String sep (join (String sep EmptyString) (y :: rest))).
    rewrite (split_on_app _ _ _ Hx), IH; done.
Qed.

(** X16. The [ids] parameter determines the keys: on non-empty lists of
    keys that contain no comma, splitting the joined string at the commas
    gives the keys back, so two different lists of such keys never produce
    the same request. *)
Theorem fetchMany_keys_recoverable (l1 l2 : list string) :
  l1 <> [] -> l2 <> [] ->
  Forall (fun x => free_of "," x = true) l1 ->
  Forall (fun x => free_of "," x = true) l2 ->
  split_on "," (join "," l1) = l1 /\
  (fetchMany l1 = fetchMany l2 -> l1 = l2).
Proof.
  intros Hne1 Hne2 Hfree1 Hfree2.
  pose proof (split_on_join "," l1 Hne1 Hfree1) as H1.
  pose proof (split_on_join "," l2 Hne2 Hfree2) as H2.
  split; [done|]. unfold fetchMany. intros [= Heq].
  rewrite <- H1, <- H2. by rewrite Heq.
Qed.

Lemma fetchMany_keys_recoverable_witness :
  split_on "," (join "," ["u1"; ""; "u3"]%string) = ["u1"; ""; "u3"]%string.
Proof.
  destruct (fetchMany_keys_recoverable ["u1"; ""; "u3"]%string ["x"]%string)
    as [H _]; [discriminate | discriminate | | | exact H];
    repeat constructor.
Defined.

(** Keys that contain a comma are not told apart. *)
Remark fetchMany_comma_collision :
  fetchMany ["a,b"]%string = fetchMany ["a"; "b"]%string.
Proof. reflexivity. Qed.

End JoinFacts.

(** * Properties of getAppInfo and generateAuthURL *)

Section AuthURLFacts.
Import AccountsAPI.
Implicit Types (env : Env) (w : World) (this : AuthURL.Fields)
  (enc : string -> string)
  (answer_me : Env -> nat -> Request -> AxiosResult AuthURL.AppInfo)
  (options : AuthURL.GenerateAuthURLOptions).

Lemma generateAuthURL_run this enc answer_me (sc : list Scope) (r : string)
    (p : option bool) env w :
  r <> EmptyString ->
  AuthURL.generateAuthURL this enc answer_me
    {| AuthURL.redirect_uri := Some r; AuthURL.scope := Some sc; AuthURL.prompt := p |}
    env w =
  match interceptor (answer_me env (length (requests w)) (GET "/me" [])) with
  | Return app =>
      (if bool_decide (r ∈ AuthURL.redirect_uris app)
       then Return (AuthURL.auth_url this enc sc r
                      (match p with Some b => b | None => false end))
       else Throw (Error "Redirect URI is not allowed"),
       {| api_cache := api_cache w; ticks := ticks w;
          requests := requests w ++ [GET "/me" []] |})
  | Throw e => (Throw e, {| api_cache := api_cache w; ticks := ticks w;
          requests := requests w ++ [GET "/me" []] |})
  end.
Proof.
  intros Hr. destruct r as [|c r]; [done|].
  unfold AuthURL.generateAuthURL, AuthURL.getAppInfo. cbn [AuthURL.scope
    AuthURL.redirect_uri AuthURL.prompt].
  rewrite run_bind, run_await_request.
  destruct (interceptor _) as [app|e]; [|done].
  by destruct (bool_decide (String c r ∈ AuthURL.redirect_uris app)).
Qed.

Lemma generateAuthURL_js_scope this enc answer_me options (sc : list Scope) env w :
  AuthURL.scope options = Some sc ->
  AuthURL.generateAuthURL_js this enc answer_me options env w =
  AuthURL.generateAuthURL this enc answer_me options env w.
Proof.
  intros Hsc. unfold AuthURL.generateAuthURL_js, AuthURL.generateAuthURL.
  by rewrite Hsc.
Qed.

(** X17. [generateAuthURL] validates before it asks: without a scope
    it rejects with "Scope is required", whatever the redirect URI; with a
    scope but without a redirect URI, or with the empty string as redirect
    URI, it rejects with "Redirect URI is required"; in both cases nothing
    was sent and the world is as before. *)
Theorem generateAuthURL_validation this enc answer_me options env w :
  (AuthURL.scope options = None ->
   AuthURL.generateAuthURL this enc answer_me options env w
     = (Throw (Error "Scope is required"), w)) /\
  (AuthURL.scope options <> None ->
   AuthURL.redirect_uri options = None \/
   AuthURL.redirect_uri options = Some EmptyString ->
   AuthURL.generateAuthURL this enc answer_me options env w
     = (Throw (Error "Redirect URI is required"), w)).
Proof.
  unfold AuthURL.generateAuthURL. split.
  - by intros ->.
  - intros Hsc Hr. destruct (AuthURL.scope options); [|done].
    by destruct Hr as [-> | ->].
Qed.

(** X18. A URL is returned exactly for an allowed redirect URI: with a
    scope and a non-empty redirect URI, and the application's info
    received, [generateAuthURL] returns the authorization URL when the
    redirect URI is among the application's [redirect_uris] and rejects
    with "Redirect URI is not allowed" when it is not; when the request
    for the info fails, that failure is the rejection. *)
Theorem generateAuthURL_allow_list this enc answer_me (sc : list Scope) (r : string)
    (p : option bool) env w :
  r <> EmptyString ->
  (forall app,
     answer_me env (length (requests w)) (GET "/me" []) = Response app ->
     (r ∈ AuthURL.redirect_uris app ->
      fst (AuthURL.generateAuthURL this enc answer_me
             {| AuthURL.redirect_uri := Some r; AuthURL.scope := Some sc;
                AuthURL.prompt := p |} env w)
        = Return (AuthURL.auth_url this enc sc r
                    (match p with Some b => b | None => false end))) /\
     (r ∉ AuthURL.redirect_uris app ->
      fst (AuthURL.generateAuthURL this enc answer_me
             {| AuthURL.redirect_uri := Some r; AuthURL.scope := Some sc;
                AuthURL.prompt := p |} env w)
        = Throw (Error "Redirect URI is not allowed"))) /\
  (forall e,
     interceptor (answer_me env (length (requests w)) (GET "/me" [])) = Throw e ->
     fst (AuthURL.generateAuthURL this enc answer_me
            {| AuthURL.redirect_uri := Some r; AuthURL.scope := Some sc;
               AuthURL.prompt := p |} env w)
       = Throw e).
Proof.
  intros Hr. rewrite (generateAuthURL_run this enc answer_me sc r p env w Hr). split.
  - intros app ->. cbn [interceptor fst]. split; intros Hin.
    + by rewrite bool_decide_eq_true_2.
    + by rewrite bool_decide_eq_false_2.
  - by intros e ->.
Qed.

Lemma generateAuthURL_allow_list_witness :
  fst (AuthURL.generateAuthURL sample_fields encodeURIComponent
         (fun _ _ _ => Response sample_app)
         {| AuthURL.redirect_uri := Some "http://evil.example/";
            AuthURL.scope := Some [basic]; AuthURL.prompt := None |}
         (sample_env (fun _ => 5) (Response JsNull) (Response [])
            (NoResponse (AxiosError "")))
         sample_world)
    = Throw (Error "Redirect URI is not allowed").
Proof.
  destruct (generateAuthURL_allow_list sample_fields encodeURIComponent
              (fun _ _ _ => Response sample_app) [basic] "http://evil.example/" None
              (sample_env (fun _ => 5) (Response JsNull) (Response [])
                 (NoResponse (AxiosError "")))
              sample_world) as [H _]; [discriminate|].
  apply (H sample_app eq_refl).
  intros Hin. apply list_elem_of_In in Hin. destruct Hin as [Heq | []]. discriminate.
Defined.

Local Ltac frame_case :=
  split_and?; first [done | by left | by right].

(** X19. Building an authorization URL has nothing to do with the
    cache: in every case, for both variants of [generateAuthURL] and for
    [getAppInfo], the cache and the clock are left alone and at most one
    request is sent; and a URL is only ever returned after exactly one
    [GET /me]. *)
Theorem generateAuthURL_frame this enc answer_me options env w :
  (api_cache (snd (AuthURL.generateAuthURL this enc answer_me options env w))
     = api_cache w /\
   ticks (snd (AuthURL.generateAuthURL this enc answer_me options env w)) = ticks w /\
   (requests (snd (AuthURL.generateAuthURL this enc answer_me options env w))
      = requests w \/
    requests (snd (AuthURL.generateAuthURL this enc answer_me options env w))
      = requests w ++ [GET "/me" []])) /\
  (api_cache (snd (AuthURL.generateAuthURL_js this enc answer_me options env w))
     = api_cache w /\
   ticks (snd (AuthURL.generateAuthURL_js this enc answer_me options env w)) = ticks w /\
   (requests (snd (AuthURL.generateAuthURL_js this enc answer_me options env w))
      = requests w \/
    requests (snd (AuthURL.generateAuthURL_js this enc answer_me options env w))
      = requests w ++ [GET "/me" []])) /\
  AuthURL.getAppInfo answer_me env w
    = (interceptor (answer_me env (length (requests w)) (GET "/me" [])), {| api_cache := api_cache w; ticks := ticks w;
          requests := requests w ++ [GET "/me" []] |}) /\
  (forall url,
     fst (AuthURL.generateAuthURL this enc answer_me options env w) = Return url ->
     requests (snd (AuthURL.generateAuthURL this enc answer_me options env w))
       = requests w ++ [GET "/me" []]).
Proof.
  assert (forall opts,
    (api_cache (snd (AuthURL.generateAuthURL_js this enc answer_me opts env w))
       = api_cache w /\
     ticks (snd (AuthURL.generateAuthURL_js this enc answer_me opts env w)) = ticks w /\
     (requests (snd (AuthURL.generateAuthURL_js this enc answer_me opts env w))
        = requests w \/
      requests (snd (AuthURL.generateAuthURL_js this enc answer_me opts env w))
        = requests w ++ [GET "/me" []])) /\
    (forall url,
       fst (AuthURL.generateAuthURL_js this enc answer_me opts env w) = Return url ->
       requests (snd (AuthURL.generateAuthURL_js this enc answer_me opts env w))
         = requests w ++ [GET "/me" []])) as Hjs.
  { intros opts. unfold AuthURL.generateAuthURL_js, AuthURL.getAppInfo.
    destruct (AuthURL.redirect_uri opts) as [[|c r]|]; cbn;
      [frame_case | | frame_case].
    rewrite run_bind, run_await_request.
    destruct (interceptor _) as [app|e]; [|cbn; frame_case].
    destruct (negb _); cbn; frame_case. }
  destruct (Hjs options) as [Hframe Hurl].
  split; [|split; [done|split; [done|]]].
  - destruct (AuthURL.scope options) as [sc|] eqn:Hsc.
    + by rewrite <- (generateAuthURL_js_scope _ _ _ _ sc _ _ Hsc).
    + unfold AuthURL.generateAuthURL. rewrite Hsc. cbn. frame_case.
  - destruct (AuthURL.scope options) as [sc|] eqn:Hsc.
    + by rewrite <- (generateAuthURL_js_scope _ _ _ _ sc _ _ Hsc).
    + unfold AuthURL.generateAuthURL. rewrite Hsc. by cbn.
Qed.

(** X20. The TypeScript source and the JavaScript build differ only on
    a missing scope: given a scope the two [generateAuthURL] behave alike
    in every respect; without one the source rejects with "Scope is
    required" while the build proceeds as if the scope were [['basic']]. *)
Theorem generateAuthURL_variants this enc answer_me options env w :
  (AuthURL.scope options <> None ->
   AuthURL.generateAuthURL_js this enc answer_me options env w
     = AuthURL.generateAuthURL this enc answer_me options env w) /\
  (AuthURL.scope options = None ->
   AuthURL.generateAuthURL_js this enc answer_me options env w
     = AuthURL.generateAuthURL this enc answer_me
         {| AuthURL.redirect_uri := AuthURL.redirect_uri options;
            AuthURL.scope := Some [basic];
            AuthURL.prompt := AuthURL.prompt options |} env w /\
   fst (AuthURL.generateAuthURL this enc answer_me options env w)
     = Throw (Error "Scope is required")).
Proof.
  split.
  - intros Hsc. destruct (AuthURL.scope options) as [sc|] eqn:E; [|done].
    by apply (generateAuthURL_js_scope _ _ _ _ sc).
  - intros Hsc. unfold AuthURL.generateAuthURL_js, AuthURL.generateAuthURL.
    by rewrite Hsc.
Qed.

Lemma generateAuthURL_validation_witness :
  AuthURL.generateAuthURL sample_fields encodeURIComponent
    (fun _ _ _ => Response sample_app)
    {| AuthURL.redirect_uri := Some ""; AuthURL.scope := Some [basic; email];
       AuthURL.prompt := None |}
    (sample_env (fun _ => 5) (Response JsNull) (Response [])
       (NoResponse (AxiosError "")))
    sample_world
  = (Throw (Error "Redirect URI is required"), sample_world).
Proof.
  destruct (generateAuthURL_validation sample_fields encodeURIComponent
              (fun _ _ _ => Response sample_app)
              {| AuthURL.redirect_uri := Some ""; AuthURL.scope := Some [basic; email];
                 AuthURL.prompt := None |}
              (sample_env (fun _ => 5) (Response JsNull) (Response [])
                 (NoResponse (AxiosError "")))
              sample_world) as [_ H].
  apply H; [discriminate | right; reflexivity].
Defined.

Lemma string_app_assoc (a b c : string) : (a +:+ b) +:+ c = a +:+ (b +:+ c).
Proof.
  induction a as [|x a IH]; [done|].
  change (String x ((a +:+ b) +:+ c) = String x (a +:+ (b +:+ c))).
  by rewrite IH.
Qed.

(** X21. [prompt] only decides the tail of the URL: leaving [prompt]
    out is the same as passing [false], and the URL returned then is the
    URL returned for [prompt: true] followed by [&prompt=none]. *)
Theorem prompt_decides_the_tail this enc answer_me (sc : option (list Scope))
    (r : option string) env w :
  AuthURL.generateAuthURL this enc answer_me
    {| AuthURL.redirect_uri := r; AuthURL.scope := sc; AuthURL.prompt := None |} env w
  = AuthURL.generateAuthURL this enc answer_me
      {| AuthURL.redirect_uri := r; AuthURL.scope := sc; AuthURL.prompt := Some false |}
      env w /\
  forall url,
    fst (AuthURL.generateAuthURL this enc answer_me
           {| AuthURL.redirect_uri := r; AuthURL.scope := sc;
              AuthURL.prompt := Some true |} env w) = Return url ->
    fst (AuthURL.generateAuthURL this enc answer_me
           {| AuthURL.redirect_uri := r; AuthURL.scope := sc;
              AuthURL.prompt := None |} env w) = Return (url +:+ "&prompt=none").
Proof.
  split; [done|]. intros url.
  destruct sc as [sc|]; [|done]. destruct r as [r|]; [|done].
  destruct (decide (r = EmptyString)) as [->|Hr]; [done|].
  rewrite !(generateAuthURL_run this enc answer_me sc r _ env w Hr).
  destruct (interceptor _) as [app|e]; [|done]. cbn [fst].
  destruct (bool_decide _); [|done]. intros [= <-]. f_equal.
  unfold AuthURL.auth_url, AuthURL.prompt_suffix. cbn [negb].
  by rewrite !string_app_assoc.
Qed.

End AuthURLFacts.

(** * Properties of the encoded URL *)

Section EncodingFacts.
Implicit Types (s t : string) (c : Ascii.ascii).

Lemma encode_app s t :
  encodeURIComponent (s +:+ t) = encodeURIComponent s +:+ encodeURIComponent t.
Proof.
  induction s as [|c s IH]; [done|].
  change (String c s +:+ t) with (String c (s +:+ t)).
  cbn [encodeURIComponent]. by rewrite IH, string_app_assoc.
Qed.

Lemma encode_scope_name (sc : Scope) :
  encodeURIComponent (AuthURL.scope_name sc) = AuthURL.scope_name sc.
Proof. by destruct sc. Qed.

Lemma free_of_app c s t : free_of c (s +:+ t) = free_of c s && free_of c t.
Proof.
  induction s as [|x s IH]; [done|].
  change (String x s +:+ t) with (String x (s +:+ t)).
  cbn [free_of]. by rewrite IH, andb_assoc.
Qed.

Lemma hex_digits_unreserved (x : Ascii.ascii) :
  unreserved (hex_digit (Ascii.N_of_ascii x / 16)) = true /\
  unreserved (hex_digit (Ascii.N_of_ascii x mod 16)) = true.
Proof. by destruct x as [[] [] [] [] [] [] [] []]. Qed.

Lemma eqb_unreserved (x c : Ascii.ascii) :
  unreserved x = true -> unreserved c = false -> Ascii.eqb x c = false.
Proof.
  intros Hx Hc. destruct (Ascii.eqb_spec x c) as [->|]; [congruence | done].
Qed.

Lemma encode_free_of c s :
  unreserved c = false -> c <> "%"%char -> free_of c (encodeURIComponent s) = true.
Proof.
  intros Hc Hpct. induction s as [|x s IH]; [done|].
  cbn [encodeURIComponent]. rewrite free_of_app, IH, andb_true_r.
  destruct (unreserved x) eqn:Hx.
  - cbn [free_of]. by rewrite (eqb_unreserved _ _ Hx Hc).
  - destruct (hex_digits_unreserved x) as [Hhi Hlo].
    unfold percent_encode. cbn [free_of].
    rewrite (eqb_unreserved _ _ Hhi Hc), (eqb_unreserved _ _ Hlo Hc).
    destruct (Ascii.eqb_spec "%"%char c) as [<-|]; done.
Qed.

(** X22. What the encoding makes of the query values: the [scope]
    value of the URL is the scope names separated by [%2C], and the
    encoded redirect URI contains none of the characters that structure a
    URL ([&], [=], [#], [?], [/], [+], the comma, the space) nor any other
    character that is neither unreserved nor [%], so a redirect URI cannot
    add or cut short a query parameter. *)
Theorem auth_url_encoding (this : AuthURL.Fields) (sc : list Scope) (r : string)
    (p : bool) :
  AuthURL.auth_url this encodeURIComponent sc r p =
    AuthURL.baseURL this +:+ "/auth/authorize?id=" +:+ AuthURL.id this
    +:+ "&scope=" +:+ join "%2C" (map AuthURL.scope_name sc)
    +:+ "&redirect_uri=" +:+ encodeURIComponent r
    +:+ AuthURL.prompt_suffix p /\
  (forall c, unreserved c = false -> c <> "%"%char ->
     free_of c (encodeURIComponent r) = true) /\
  Forall (fun c => free_of c (encodeURIComponent r) = true)
    ["&"; "="; "#"; "?"; "/"; "+"; ","; " "]%char.
Proof.
  split_and!.
  - unfold AuthURL.auth_url. do 4 f_equal.
    assert (encodeURIComponent (join "," (map AuthURL.scope_name sc))
            = join "%2C" (map AuthURL.scope_name sc)) as ->; [|done].
    induction sc as [|x sc IH]; [done|]. destruct sc as [|y sc].
    + cbn [map join]. apply encode_scope_name.
    + change (join "," (map AuthURL.scope_name (x :: y :: sc)))
        with (AuthURL.scope_name x +:+ "," +:+ join "," (map AuthURL.scope_name (y :: sc))).
      change (join "%2C" (map AuthURL.scope_name (x :: y :: sc)))
        with (AuthURL.scope_name x +:+ "%2C"
              +:+ join "%2C" (map AuthURL.scope_name (y :: sc))).
      by rewrite !encode_app, encode_scope_name, IH.
  - intros c. apply encode_free_of.
  - repeat first [apply List.Forall_nil
                 | apply List.Forall_cons; [by apply encode_free_of|]].
Qed.

End EncodingFacts.
